(** * Contract expression engine: the front end of [contracts/main.py]

    A shallow embedding of the public operations of the engine
    ([parse_contract_string], [check_contracts], [check], [check_multiple],
    [fail], [new_contract_impl], [can_accept_exactly_one_argument]) over the
    two process-wide tables they share: the parse cache
    [Storage.string2contract] and the extension registry
    [Extension.registrar].

    The grammar ([syntax.contract], [library.identifier_expression]), the
    node classes and their [_check_contract] methods, the formatting helpers
    and [backported.getcallargs] live in sibling modules; they enter the
    development as the fields of the [Library] class below. *)

From Stdlib Require Import ZArith.
From stdpp Require Import base option list strings pretty gmap.

Local Open Scope string_scope.

(** ** Python values *)

(** What [getfullargspec] reports about a function: [args], [varargs],
    [varkw], [kwonlyargs] (the fields [get_all_arg_names] reads) and the
    number of trailing positional parameters with a default. *)
Record Func := mkFunc {
  func_name : string;
  func_args : list string;
  func_defaults : nat;
  func_varargs : option string;
  func_varkw : option string;
  func_kwonlyargs : list string
}.

#[global] Instance Func_eq_dec : EqDecision Func.
Proof. solve_decision. Defined.

(** The run-time values the engine sees: contract strings, identifiers,
    conditions and the values under check. [PyFunction] is what
    [inspect.isfunction] recognises, [PyMethod] a bound method
    ([inspect.ismethod], with [__self__] and [__func__]), [PyInstance] any
    other object, with the [__call__] of its class when it has one. *)
#[local] Unset Elimination Schemes.
Inductive PyObj :=
| PyNone
| PyBool (b : bool)
| PyInt (z : Z)
| PyStr (s : string)
| PyList (items : list PyObj)
| PyTuple (items : list PyObj)
| PyFunction (f : Func)
| PyMethod (self : PyObj) (f : Func)
| PyInstance (cls : string) (call : option Func).
#[local] Set Elimination Schemes.

#[global] Instance PyObj_eq_dec : EqDecision PyObj.
Proof.
  refine (fix go (x y : PyObj) {struct x} : Decision (x = y) :=
    match x, y with
    | PyNone, PyNone => left eq_refl
    | PyBool a, PyBool b => cast_if (decide (a = b))
    | PyInt a, PyInt b => cast_if (decide (a = b))
    | PyStr a, PyStr b => cast_if (decide (a = b))
    | PyList l, PyList k => cast_if (@decide (l = k) (@list_eq_dec _ go l k))
    | PyTuple l, PyTuple k => cast_if (@decide (l = k) (@list_eq_dec _ go l k))
    | PyFunction f, PyFunction g => cast_if (decide (f = g))
    | PyMethod s f, PyMethod t g => cast_if_and (go s t) (decide (f = g))
    | PyInstance c f, PyInstance d g => cast_if_and (decide (c = d)) (decide (f = g))
    | _, _ => right _
    end); congruence.
Defined.

(** ** Contract nodes *)

(** The node classes [main.py] builds itself ([CheckType], [CheckCallable],
    [SeparateContext], [Extension]) and, for what only the grammar builds,
    a leaf clause and a binary combination, each tagged with the text of
    its production. *)
Inductive Contract :=
| CheckType (t : string)
| CheckCallable (callable : PyObj)
| SeparateContext (contract : Contract)
| Extension (identifier : string)
| Clause (text : string)
| Combine (op : string) (left right : Contract).

#[global] Instance Contract_eq_dec : EqDecision Contract.
Proof. solve_decision. Defined.

(** ** Contexts, positions, exceptions *)

(** [interface.Context]: the ordered bindings identifier -> value. *)
Definition Context := list (string * PyObj).

(** [Context()]. *)
Definition Context_new : Context := [].

(** Modelled from the spec: the position a grammar failure reports
    ([e.lineno], [e.col] of the absent grammar engine), a line counted from
    one and a column counted from zero, with [str(e)]. *)
Record ParseError := mkParseError {
  pe_str : string;
  lineno : positive;
  col : N
}.

(** [interface.Where(string, line=..., column=...)]. *)
Record Where := mkWhere {
  where_string : string;
  where_line : positive;
  where_col : N
}.

(** [interface.ContractNotRespected]: [main.py] reads and rewrites its
    [error] field; [stack] is the chain of (rendered contract, rendered
    value) the check built. *)
Record Violation := mkViolation {
  error : string;
  stack : list (string * string)
}.

Inductive Exn :=
| ValueError (msg : string)
| TypeError (msg : string)
| AssertionError (msg : string)
| IndexError (msg : string)
| ContractSyntaxError (msg : string) (where_ : Where)
| ContractNotRespected (e : Violation)
| AttributeError (msg : string)
| ParseFatalException (e : ParseError).

(** ** The grammar engine *)

(** What a grammar element does on a string, read from its start: it
    matches and leaves some input unconsumed, or it gives up, recoverably
    ([ParseException]) or not ([ParseFatalException]). *)
Inductive Parsed (A : Type) :=
| Match (tokens : A) (unconsumed : string)
| NoMatch (e : ParseError)
| Fatal (e : ParseError).
Arguments Match {A} _ _.
Arguments NoMatch {A} _.
Arguments Fatal {A} _.

Inductive ParseResult (A : Type) :=
| ParseOk (tokens : A)
| ParseException (e : ParseError)
| ParseFatalError (e : ParseError).
Arguments ParseOk {A} _.
Arguments ParseException {A} _.
Arguments ParseFatalError {A} _.

(** Modelled from the spec: [expr.parseString(instring, parseAll=True)] of
    the absent grammar engine. Parsing requires consuming the entire
    string, not a prefix: a match that leaves input behind is a
    [ParseException], built by [string_end]. *)
Definition parseString {A} (string_end : string -> string -> ParseError)
    (expr : string -> Parsed A) (instring : string) : ParseResult A :=
  match expr instring with
  | Match tokens unconsumed =>
      if bool_decide (unconsumed = "") then ParseOk tokens
      else ParseException (string_end instring unconsumed)
  | NoMatch e => ParseException e
  | Fatal e => ParseFatalError e
  end.

(** ** The sibling modules, as an interface *)

Class Library := {
  (** [syntax.contract]: the grammar of contract expressions. It reads the
      registry: an identifier is an expression once it is registered. *)
  syntax_contract : gmap string Contract -> string -> Parsed Contract;
  (** [library.identifier_expression]. *)
  identifier_expression : string -> Parsed string;
  (** The failure of [parseAll=True] on the input left unconsumed. *)
  string_end : string -> string -> ParseError;
  (** [c._check_contract(context, value)]: the context after the check,
      or the exception raised. Extension references are resolved in the
      registry. *)
  _check_contract :
    gmap string Contract -> Contract -> Context -> PyObj -> Exn + Context;
  (** [backported.getcallargs(f, *args)]. *)
  getcallargs : PyObj -> list PyObj -> Exn + unit;
  (** Formatting: [%r], [describe_value], [%s] and [%r] of a node, [%r] of
      a context, [%s] of a [Where], of a [ContractSyntaxError] and of a
      class. *)
  repr : PyObj -> string;
  describe_value : PyObj -> string;
  str_Contract : Contract -> string;
  repr_Contract : Contract -> string;
  repr_Context : Context -> string;
  str_Where : Where -> string;
  str_ContractSyntaxError : string -> Where -> string;
  str_class : PyObj -> string
}.

(** ** Process state and the monad of the engine *)

(** Calls that leave [main.py] for the sibling modules, in the order they
    are made (a ghost log: nothing reads it). *)
Inductive Call :=
| CallParseString (instring : string)
| CallIdentifier (instring : string)
| CallCheck (c : Contract) (value : PyObj)
| CallGetcallargs (f : PyObj) (args : list PyObj).

(** [Storage.string2contract], [Extension.registrar], and the log. *)
Record State := mkState {
  string2contract : gmap string Contract;
  registrar : gmap string Contract;
  calls : list Call
}.

(** Both tables are empty when the process starts. *)
Definition initial : State := mkState ∅ ∅ [].

Definition log (c : Call) (st : State) : State :=
  mkState (string2contract st) (registrar st) (calls st ++ [c]).

(** A computation changes the state and returns or raises; what it wrote
    before raising stays written. *)
Definition M (A : Type) : Type := State -> (Exn + A) * State.

#[global] Instance M_ret : MRet M := fun A a st => (inr a, st).
#[global] Instance M_bind : MBind M := fun A B f m st =>
  match m st with
  | (inr a, st') => f a st'
  | (inl e, st') => (inl e, st')
  end.

Definition raise {A} (e : Exn) : M A := fun st => (inl e, st).

(** [try: body / except: handler], where [handler e = None] when no
    [except] clause matches [e]. *)
Definition try_except {A} (body : M A) (handler : Exn -> option (M A)) : M A :=
  fun st =>
    match body st with
    | (inr a, st') => (inr a, st')
    | (inl e, st') =>
        match handler e with
        | Some h => h st'
        | None => (inl e, st')
        end
    end.

(** [try: body / except: handler / else: orelse]. *)
Definition try_except_else {A B} (body : M A) (handler : Exn -> option (M B))
    (orelse : A -> M B) : M B :=
  fun st =>
    match body st with
    | (inr a, st') => orelse a st'
    | (inl e, st') =>
        match handler e with
        | Some h => h st'
        | None => (inl e, st')
        end
    end.

Definition nl : string := String (Ascii.ascii_of_nat 10) "".

Section Engine.
Context `{L : Library}.

(** ** [parse_contract_string] *)

Definition parse_contract_string (s : string) : M Contract := fun st =>
  match string2contract st !! s with
  | Some c => (inr c, st)
  | None =>
      let st' := log (CallParseString s) st in
      match parseString string_end (syntax_contract (registrar st)) s with
      | ParseOk c =>
          (inr c, mkState (<[s := c]> (string2contract st')) (registrar st') (calls st'))
      | ParseException e =>
          (inl (ContractSyntaxError (pe_str e) (mkWhere s (lineno e) (col e))), st')
      | ParseFatalError e =>
          (inl (ContractSyntaxError (pe_str e) (mkWhere s (lineno e) (col e))), st')
      end
  end.

(** ** [check_contracts] *)

(** [for x in contracts: C.append(parse_contract_string(x))]. *)
Fixpoint parse_loop (contracts : list string) (C : list Contract) : M (list Contract) :=
  match contracts with
  | [] => mret C
  | x :: contracts' =>
      c ← parse_contract_string x;
      parse_loop contracts' (C ++ [c])
  end.

(** [c._check_contract(context, value)], against the registry as it is. *)
Definition call_check (c : Contract) (context : Context) (value : PyObj) : M Context :=
  fun st => (_check_contract (registrar st) c context value, log (CallCheck c value) st).

(** [for i in range(...): C[i]._check_contract(context, values[i])]; the
    one [context] is the object every iteration is handed. *)
Fixpoint check_loop (C : list Contract) (values : list PyObj) (range : list nat)
    (context : Context) : M Context :=
  match range with
  | [] => mret context
  | i :: range' =>
      match C !! i, values !! i with
      | Some c, Some v =>
          context' ← call_check c context v;
          check_loop C values range' context'
      | _, _ => raise (IndexError "list index out of range")
      end
  end.

Definition check_contracts (contracts : list string) (values : list PyObj) : M Context :=
  if bool_decide (length contracts = length values) then
    C ← parse_loop contracts [];
    check_loop C values (seq 0 (length contracts)) Context_new
  else raise (AssertionError "").

(** ** [check] and [check_multiple] *)

(** [e.error = fmt % (desc, e.error)] when a description was given. *)
Definition describe_error (sep : string) (desc : option string) (e : Violation) : Violation :=
  match desc with
  | Some d => mkViolation (d ++ sep ++ error e) (stack e)
  | None => e
  end.

Definition reraise_described {A} (sep : string) (desc : option string)
    (e : Exn) : option (M A) :=
  match e with
  | ContractNotRespected v => Some (raise (ContractNotRespected (describe_error sep desc v)))
  | _ => None
  end.

Definition check (contract object : PyObj) (desc : option string) : M Context :=
  match contract with
  | PyStr s =>
      try_except (check_contracts [s] [object])
        (reraise_described (nl ++ "Details of PyContracts error:" ++ nl) desc)
  | _ =>
      raise (ValueError ("I expect a string (contract spec) as the first "
                         ++ "argument, not a " ++ str_class contract ++ "."))
  end.

(** The list of couples as the Python value [check_multiple] receives. *)
Definition couples_value (couples : list (string * PyObj)) : PyObj :=
  PyList (map (fun x => PyTuple [PyStr x.1; x.2]) couples).

(** The contract on the argument of [check_multiple]. *)
Definition couples_contract : string := "list[>0](tuple(str, *))".

Definition couples_expected : string :=
  "I expect a non-empty list of (object, string) tuples.".

Definition check_multiple (couples : list (string * PyObj)) (desc : option string)
    : M Context :=
  _ ← check (PyStr couples_contract) (couples_value couples) (Some couples_expected);
  let contracts := map fst couples in
  let values := map snd couples in
  try_except (check_contracts contracts values)
    (reraise_described (nl ++ nl ++ "Details:" ++ nl) desc).

(** ** [fail] *)

(** Modelled from the spec: [Contract.check(value)] of the absent
    [interface] module, the top-level check of one node: a context is
    created for this check, the node is checked against it, and the context
    is returned to the caller for inspection. *)
Definition Contract_check (c : Contract) (value : PyObj) : M Context :=
  call_check c Context_new value.

Definition fail (contract : string) (value : PyObj) : M unit :=
  try_except_else
    (c ← parse_contract_string contract;
     context ← Contract_check c value;
     mret (c, context))
    (fun e => match e with
              | ContractNotRespected _ => Some (mret tt)
              | _ => None
              end)
    (fun r =>
       let msg := "I did not expect that this value would satisfy this contract." ++ nl in
       let msg := msg ++ "-    value: " ++ describe_value value ++ nl in
       let msg := msg ++ "- contract: " ++ str_Contract r.1 ++ nl in
       let msg := msg ++ "-  context: " ++ repr_Context r.2 in
       raise (ValueError msg)).

(** ** [can_accept_exactly_one_argument] *)

(** [hasattr(o, '__call__')]. *)
Definition hasattr_call (o : PyObj) : bool :=
  match o with
  | PyFunction _ | PyMethod _ _ | PyInstance _ (Some _) => true
  | _ => false
  end.

(** [o.__call__] of an object that is neither a function nor a bound
    method: the [__call__] of its class, bound to it. *)
Definition getattr_call (o : PyObj) : M PyObj :=
  match o with
  | PyInstance _ (Some f) => mret (PyMethod o f)
  | _ => raise (AttributeError "__call__")
  end.

(** The function and the arguments [getcallargs] is tried on. *)
Definition introspected (callable_thing : PyObj) : M (PyObj * list PyObj) :=
  match callable_thing with
  | PyMethod self func => mret (PyFunction func, [self; PyStr "test"])
  | PyFunction _ => mret (callable_thing, [PyStr "test"])
  | _ => f ← getattr_call callable_thing; mret (f, [PyStr "test"])
  end.

(** [try: getcallargs(f, *args) / except (TypeError, ValueError) as e]. *)
Definition try_getcallargs (f : PyObj) (args : list PyObj) : M (bool * option string) :=
  fun st =>
    let st' := log (CallGetcallargs f args) st in
    match getcallargs f args with
    | inr _ => (inr (true, None), st')
    | inl (TypeError m) | inl (ValueError m) => (inr (false, Some m), st')
    | inl e => (inl e, st')
    end.

Definition can_accept_exactly_one_argument (callable_thing : PyObj)
    : M (bool * option string) :=
  fargs ← introspected callable_thing;
  try_getcallargs fargs.1 fargs.2.

(** ** [new_contract_impl] *)

(** "Make sure it is not already an expression that we know", skipped for
    an identifier that is already in the registry. *)
Definition check_not_known (identifier : string) : M unit := fun st =>
  match registrar st !! identifier with
  | Some _ => (inr tt, st)
  | None =>
      try_except
        (c ← parse_contract_string identifier;
         raise (ValueError ("Invalid identifier " ++ repr (PyStr identifier)
                  ++ "; it overwrites an already known "
                  ++ "expression. In fact, I can parse it as "
                  ++ str_Contract c ++ " (" ++ repr_Contract c ++ ").")))
        (fun e => match e with
                  | ContractSyntaxError _ _ => Some (mret tt)
                  | _ => None
                  end) st
  end.

(** "Make sure it corresponds to our idea of identifier". *)
Definition check_identifier (identifier : string) : M unit := fun st =>
  let st' := log (CallIdentifier identifier) st in
  match parseString string_end identifier_expression identifier with
  | ParseOk _ => (inr tt, st')
  | ParseException e =>
      let where_ := mkWhere identifier (lineno e) (col e) in
      (inl (ValueError ("The given identifier " ++ repr (PyStr identifier)
              ++ " does not correspond to my idea "
              ++ "of what an identifier should look like;" ++ nl
              ++ pe_str e ++ nl ++ str_Where where_)), st')
  | ParseFatalError e => (inl (ParseFatalException e), st')
  end.

(** "Now let's check the condition": the bare contract of a definition. *)
Definition check_condition (condition : PyObj) : M Contract :=
  match condition with
  | PyStr definition =>
      try_except (parse_contract_string definition)
        (fun e => match e with
                  | ContractSyntaxError msg where_ =>
                      Some (raise (ValueError ("The given condition " ++ repr condition
                              ++ " does not parse cleanly: "
                              ++ str_ContractSyntaxError msg where_)))
                  | _ => None
                  end)
  | _ =>
      if hasattr_call condition then
        '(can, error) ← can_accept_exactly_one_argument condition;
        if (can : bool) then mret (CheckCallable condition)
        else raise (ValueError ("The given callable " ++ repr condition
                      ++ " should be able to accept "
                      ++ "exactly one argument. Error: " ++ default "None" error ++ " "))
      else
        raise (ValueError ("I need either a string or a callable for the "
                 ++ "condition; found " ++ describe_value condition ++ "."))
  end.

(** "It's okay if we define the same thing twice": [==] on nodes is
    structural equality. *)
Definition define_or_compare (identifier : string) (contract : Contract) : M unit := fun st =>
  match registrar st !! identifier with
  | Some old =>
      if bool_decide (contract = old) then (inr tt, st)
      else
        let msg := "Tried to redefine " ++ repr (PyStr identifier)
                   ++ " with a definition that looks "
                   ++ "different to me." ++ nl in
        let msg := msg ++ " - old: " ++ repr_Contract old ++ nl in
        let msg := msg ++ " - new: " ++ repr_Contract contract ++ nl in
        (inl (ValueError msg), st)
  | None =>
      (inr tt, mkState (string2contract st) (<[identifier := contract]> (registrar st))
                 (calls st))
  end.

(** "Check that we can parse it now". *)
Definition check_parse_now (identifier : string) : M unit :=
  try_except
    (c ← parse_contract_string identifier;
     let expected := Extension identifier in
     if bool_decide (c = expected) then mret tt
     else raise (AssertionError ("Expected " ++ repr_Contract c ++ ", got "
                   ++ repr_Contract expected ++ ".")))
    (fun e => match e with
              | ContractSyntaxError msg where_ =>
                  Some (raise (AssertionError ("Cannot parse " ++ repr (PyStr identifier)
                          ++ ": " ++ str_ContractSyntaxError msg where_)))
              | _ => None
              end).

Definition new_contract_impl (identifier condition : PyObj) : M Contract :=
  match identifier with
  | PyStr identifier =>
      _ ← check_not_known identifier;
      _ ← check_identifier identifier;
      bare_contract ← check_condition condition;
      let contract := SeparateContext bare_contract in
      _ ← define_or_compare identifier contract;
      _ ← check_parse_now identifier;
      mret bare_contract
  | _ =>
      raise (ValueError ("I expect the identifier to be a string; received "
               ++ describe_value identifier ++ "."))
  end.

End Engine.

(** ** What the engine relies on from the sibling modules *)

(** Every cached node is the one the grammar gives for its string against
    the registry as it is. *)
Definition cache_sound `{L : Library} (st : State) : Prop :=
  forall s c, string2contract st !! s = Some c ->
    parseString string_end (syntax_contract (registrar st)) s = ParseOk c.

(** Modelled from the spec: the behaviour of the absent grammar and node
    classes that [main.py] builds on.
    - The contract [couples_contract] that [check_multiple] puts on its own
      argument parses, whatever the registry, and accepts every non-empty
      list of (string, value) tuples.
    - The grammar rejects the empty string.
    - The isolation wrapper delegates to the wrapped node against a private,
      throwaway context: identifiers bound inside are invisible outside,
      and it fails when the wrapped node does. *)
Class LibraryLaws `{L : Library} : Prop := {
  couples_contract_accepts :
    exists g, forall reg,
      parseString string_end (syntax_contract reg) couples_contract = ParseOk g /\
      forall couples, couples <> [] ->
        exists context,
          _check_contract reg g Context_new (couples_value couples) = inr context;
  empty_string_rejected :
    forall reg c unconsumed, syntax_contract reg "" <> Match c unconsumed;
  separate_context_isolates :
    forall reg c context value,
      match _check_contract reg c Context_new value with
      | inr _ => _check_contract reg (SeparateContext c) context value = inr context
      | inl _ => exists e, _check_contract reg (SeparateContext c) context value = inl e
      end
}.

(** The pairs checked one after the other, each against the context the
    previous one left; the first exception ends the run. *)
Fixpoint check_in_order `{L : Library} (reg : gmap string Contract) (context : Context)
    (pairs : list (Contract * PyObj)) : Exn + Context :=
  match pairs with
  | [] => inr context
  | (c, v) :: pairs' =>
      match _check_contract reg c context v with
      | inr context' => check_in_order reg context' pairs'
      | inl e => inl e
      end
  end.

(** The state after the checks of [pairs] were made, in order. *)
Definition checked (pairs : list (Contract * PyObj)) (st : State) : State :=
  mkState (string2contract st) (registrar st)
    (calls st ++ map (fun p => CallCheck p.1 p.2) pairs).

(** What [except ContractNotRespected as e: e.error = ...; raise] lets
    through: the violation with its error described, any other exception
    untouched. *)
Definition described (sep : string) (desc : option string) (e : Exn) : Exn :=
  match e with
  | ContractNotRespected v => ContractNotRespected (describe_error sep desc v)
  | _ => e
  end.

(** [x] occurs in [msg]. *)
Definition mentions (msg x : string) : Prop :=
  exists before after, msg = before ++ x ++ after.

(** The pairs [check_in_order] gets to: all of them, or those up to and
    including the first that raises. *)
Fixpoint attempted `{L : Library} (reg : gmap string Contract) (context : Context)
    (pairs : list (Contract * PyObj)) : list (Contract * PyObj) :=
  match pairs with
  | [] => []
  | (c, v) :: pairs' =>
      (c, v) :: match _check_contract reg c context v with
                | inr context' => attempted reg context' pairs'
                | inl _ => []
                end
  end.

Section Messages.
Context `{L : Library}.

(** The text of the error for an identifier that is an expression already. *)
Definition overwrites (identifier : string) (c : Contract) : string :=
  "Invalid identifier " ++ repr (PyStr identifier)
  ++ "; it overwrites an already known "
  ++ "expression. In fact, I can parse it as "
  ++ str_Contract c ++ " (" ++ repr_Contract c ++ ").".

(** The text of the error for a callable of the wrong arity. *)
Definition not_one_argument (condition : PyObj) (error : option string) : string :=
  "The given callable " ++ repr condition
  ++ " should be able to accept "
  ++ "exactly one argument. Error: " ++ default "None" error ++ " ".

(** An identifier is registered in [st]: the registry holds [stored] for it,
    the identifier grammar accepts it and the cache resolves it to the
    extension reference. A registration that returns leaves it so. *)
Definition registered (st : State) (identifier : string) (stored : Contract) : Prop :=
  registrar st !! identifier = Some stored /\
  (exists tokens, parseString string_end identifier_expression identifier = ParseOk tokens) /\
  string2contract st !! identifier = Some (Extension identifier).

End Messages.

(** ** What the checking operations leave alone *)

(** A computation keeps the two tables: it never writes the registry, it
    never removes or replaces a cached node, and a sound cache stays
    sound. *)
Definition keeps_tables `{L : Library} {A} (m : M A) : Prop :=
  forall st r st', m st = (r, st') ->
    registrar st' = registrar st /\
    (cache_sound st -> cache_sound st') /\
    (forall s c, string2contract st !! s = Some c -> string2contract st' !! s = Some c).

(** The calls of [later] that were made after those of [earlier]. *)
Definition calls_since (earlier later : State) (made : list Call) : Prop :=
  calls later = (calls earlier ++ made)%list.

(** Two outcomes that differ at most in the [error] text of a violation,
    the first text showing the second. *)
Definition same_but_text {A} (a b : (Exn + A) * State) : Prop :=
  a.2 = b.2 /\
  match a.1, b.1 with
  | inr x, inr y => x = y
  | inl (ContractNotRespected v), inl (ContractNotRespected w) =>
      stack v = stack w /\ mentions (error v) (error w)
  | inl e, inl e' => e = e'
  | _, _ => False
  end.

(** ** [new_contract] *)

(** [new_contract] on its arguments: with one argument that is a function, the
    decorator form; otherwise the arguments go to [new_contract_impl], which
    takes two. *)
Definition new_contract `{L : Library} (args : list PyObj) : M Contract :=
  match args with
  | [PyFunction function] =>
      let identifier := func_name function in
      new_contract_impl (PyStr identifier) (PyFunction function)
  | [identifier; condition] => new_contract_impl identifier condition
  | _ =>
      raise (TypeError ("new_contract_impl() takes exactly 2 arguments ("
                        ++ pretty (length args) ++ " given)"))
  end.

(** ** The decorator: its own exceptions and state *)

(** What the decorator code raises: [interface.ContractException], the
    [KeyError] of a dict, or an exception of the engine. *)
Inductive Raised :=
| ContractException (msg : string)
| KeyError (key : string)
| Engine (e : Exn).

(** The engine's tables together with what was printed. *)
Record World := mkWorld {
  engine_state : State;
  stdout : list string
}.

Definition D (A : Type) : Type := World -> (Raised + A) * World.

#[global] Instance D_ret : MRet D := fun A a w => (inr a, w).
#[global] Instance D_bind : MBind D := fun A B f m w =>
  match m w with
  | (inr a, w') => f a w'
  | (inl e, w') => (inl e, w')
  end.

Definition fault {A} (r : Raised) : D A := fun w => (inl r, w).

(** A computation of the engine, run inside the decorator. *)
Definition engine {A} (m : M A) : D A := fun w =>
  match m (engine_state w) with
  | (inr a, st') => (inr a, mkWorld st' (stdout w))
  | (inl e, st') => (inl (Engine e), mkWorld st' (stdout w))
  end.

(** A value that fails or is returned, as a computation. *)
Definition result {A} (r : Raised + A) : D A := fun w => (r, w).

(** [print(x)]. *)
Definition print (line : string) : D unit := fun w =>
  (inr tt, mkWorld (engine_state w) (stdout w ++ [line])).

(** A contract specification as the decorator receives it: any object, or
    a type. *)
Inductive Spec :=
| SpecObject (o : PyObj)
| SpecType (t : string).

(** A function object under decoration: what [getfullargspec] reports (with
    its [annotations]), [__doc__], [__module__], and what calling it does. *)
Record Function := mkFunction {
  fn_spec : Func;
  fn_annotations : list (string * Spec);
  fn_doc : option string;
  fn_module : string;
  fn_call : list PyObj -> list (string * PyObj) -> D PyObj
}.

(** What [parse_docstring_annotations] found: the [type] of each documented
    parameter, by name, and the [type] of each documented return value. *)
Record DocAnnotations := mkDocAnnotations {
  doc_params : list (string * string);
  doc_returns : list string
}.

(** The modules the decorator uses besides the engine. *)
Class Glue := {
  (** [docstring_parsing.parse_docstring_annotations(function.__doc__)]. *)
  parse_docstring_annotations : option string -> DocAnnotations;
  (** [backported.getcallargs(function, *args, **kwargs)]: the arguments,
      by parameter name. *)
  bind_arguments : Func -> list PyObj -> list (string * PyObj) -> Exn + gmap string PyObj;
  (** [str] of the dict of annotations. *)
  str_annotations : list (string * Spec) -> string
}.

Section Decorator.
Context `{L : Library} `{G : Glue}.

(** ** [get_all_arg_names] *)

Definition get_all_arg_names (function : Func) : list string :=
  let possible := ((Some <$> func_args function)
                   ++ [func_varargs function; func_varkw function]
                   ++ (Some <$> func_kwonlyargs function))%list in
  omap (fun x => match x with
                 | Some name => if bool_decide (name = "") then None else Some name
                 | None => None
                 end) possible.

(** ** [parse_flexible_spec] *)

Definition parse_flexible_spec (spec : Spec) : D Contract :=
  match spec with
  | SpecObject (PyStr s) => engine (parse_contract_string s)
  | SpecType t => mret (CheckType t)
  | SpecObject o =>
      fault (ContractException ("I want either a string or a type, not "
                                ++ describe_value o ++ "."))
  end.

(** ** [parse_contracts_from_docstring] *)

Definition startswith (x prefix : string) : bool := String.prefix prefix x.

Definition endswith (x suffix : string) : bool :=
  Nat.leb (String.length suffix) (String.length x)
  && bool_decide (String.substring (String.length x - String.length suffix)
                    (String.length suffix) x = suffix).

(** "Removes the double back-tick quotes if present." *)
Definition remove_quotes (x : string) : Raised + string :=
  if startswith x "``" && endswith x "``" && Nat.ltb 3 (String.length x) then
    inr (String.substring 2 (String.length x - 4) x)
  else if startswith x "``" || endswith x "``" then
    inl (ContractException ("Malformed quoting in string " ++ repr (PyStr x) ++ "."))
  else inr x.

(** [", ".join(l)]. *)
Fixpoint join (sep : string) (l : list string) : string :=
  match l with
  | [] => ""
  | [x] => x
  | x :: l' => x ++ sep ++ join sep l'
  end.

(** [dict([(name, remove_quotes(params[name].type)) for name in params])]. *)
Fixpoint unquote_all (params : list (string * string)) : Raised + list (string * string) :=
  match params with
  | [] => inr []
  | (name, t) :: params' =>
      match remove_quotes t with
      | inl e => inl e
      | inr t' =>
          match unquote_all params' with
          | inl e => inl e
          | inr rest => inr ((name, t') :: rest)
          end
      end
  end.

(** "Check we don't have extra". *)
Fixpoint check_no_extra (names all_args : list string) : Raised + unit :=
  match names with
  | [] => inr tt
  | name :: names' =>
      if bool_decide (name ∈ all_args) then check_no_extra names' all_args
      else inl (ContractException
                  ("A contract was specified for argument " ++ repr (PyStr name)
                   ++ " which I cannot find"
                   ++ " in my list of arguments (" ++ join ", " all_args ++ ")"))
  end.

Definition parse_contracts_from_docstring (function : Function)
    : Raised + (list (string * string) * option string) :=
  let annotations := parse_docstring_annotations (fn_doc function) in
  if Nat.ltb 1 (length (doc_returns annotations)) then
    inl (ContractException "More than one return type specified.")
  else
    match (match doc_returns annotations with
           | [] => inr None
           | t :: _ => match remove_quotes t with
                       | inl e => inl e
                       | inr t' => inr (Some t')
                       end
           end) with
    | inl e => inl e
    | inr returns =>
        match unquote_all (doc_params annotations) with
        | inl e => inl e
        | inr name2type =>
            let all_args := get_all_arg_names (fn_spec function) in
            match check_no_extra (name2type.*1) all_args with
            | inl e => inl e
            | inr _ => inr (name2type, returns)
            end
        end
    end.

(** ** [contracts_decorate] and its [wrapper] *)

(** What the wrapper closes over, and the attributes it is given. *)
Record Decorated := mkDecorated {
  function : Function;
  all_args : list string;
  accepts_parsed : gmap string Contract;
  returns_parsed : Contract;
  wrapper_doc : option string;
  wrapper_name : string;
  wrapper_module : string
}.

(** [dict.pop(key, None)] and the dict without the key: the value under the
    key, or [None] when the dict has no such key. *)
Definition pop (key : string) (d : list (string * Spec)) : Spec * list (string * Spec) :=
  (from_option snd (SpecObject PyNone) (find (fun kv => bool_decide (kv.1 = key)) d),
   filter (fun kv => kv.1 <> key) d).

(** [returns is None]. *)
Definition is_None (spec : Spec) : bool :=
  match spec with
  | SpecObject PyNone => true
  | _ => false
  end.

(** [for kw in kwargs: if not kw in all_args: raise]. *)
Fixpoint check_known (names all_args : list string) : Raised + unit :=
  match names with
  | [] => inr tt
  | kw :: names' =>
      if bool_decide (kw ∈ all_args) then check_known names' all_args
      else inl (ContractException
                  ("Unknown parameter " ++ repr (PyStr kw) ++ "; I know "
                   ++ repr (PyList (PyStr <$> all_args)) ++ "."))
  end.

(** [dict([(x, parse_flexible_spec(accepts_dict[x])) for x in accepts_dict])]. *)
Fixpoint parse_accepts (accepts_dict : list (string * Spec))
    (parsed : gmap string Contract) : D (gmap string Contract) :=
  match accepts_dict with
  | [] => mret parsed
  | (x, spec) :: accepts_dict' =>
      c ← parse_flexible_spec spec;
      parse_accepts accepts_dict' (<[x := c]> parsed)
  end.

(** Where the contracts come from: the keyword arguments, else the
    annotations, else the docstring. The second component is what the
    variable [returns] holds, [None] included. *)
Definition find_contracts (function : Function) (all_args : list string)
    (kwargs : list (string * Spec)) : D (list (string * Spec) * Spec) :=
  match kwargs with
  | _ :: _ =>
      let popped := pop "returns" kwargs in
      _ ← result (check_known (popped.2.*1) all_args);
      mret (popped.2, popped.1)
  | [] =>
      let annotations := fn_annotations function in
      match annotations with
      | _ :: _ =>
          _ ← print (str_annotations annotations);
          let popped := pop "return" annotations in
          mret (popped.2, popped.1)
      | [] =>
          match fn_doc function with
          | None =>
              fault (ContractException
                       ("You did not specify a contract, nor I can "
                        ++ "find a docstring for "
                        ++ repr (PyFunction (fn_spec function)) ++ "."))
          | Some _ =>
              found ← result (parse_contracts_from_docstring function);
              if bool_decide (found.1 = [])
                 && bool_decide (found.2 = None \/ found.2 = Some "")
              then fault (ContractException "No contract specified in docstring.")
              else mret (prod_map id (fun t => SpecObject (PyStr t)) <$> found.1,
                         from_option (fun t => SpecObject (PyStr t)) (SpecObject PyNone)
                           found.2)
          end
      end
  end.

Definition contracts_decorate (function : Function) (kwargs : list (string * Spec))
    : D Decorated :=
  let all_args := get_all_arg_names (fn_spec function) in
  found ← find_contracts function all_args kwargs;
  let returns := if is_None found.2 then SpecObject (PyStr "*") else found.2 in
  accepts_parsed ← parse_accepts found.1 ∅;
  returns_parsed ← parse_flexible_spec returns;
  mret (mkDecorated function all_args accepts_parsed returns_parsed
          (fn_doc function) (func_name (fn_spec function)) (fn_module function)).

(** [for arg in all_args: if arg in accepts_parsed: ...], every check
    against the one [context]. *)
Fixpoint check_arguments (all_args : list string) (accepts_parsed : gmap string Contract)
    (bound : gmap string PyObj) (context : Context) : D Context :=
  match all_args with
  | [] => mret context
  | arg :: all_args' =>
      match accepts_parsed !! arg with
      | Some c =>
          match bound !! arg with
          | Some v =>
              context' ← engine (call_check c context v);
              check_arguments all_args' accepts_parsed bound context'
          | None => fault (KeyError arg)
          end
      | None => check_arguments all_args' accepts_parsed bound context
      end
  end.

Definition wrapper (d : Decorated) (args : list PyObj) (kwargs : list (string * PyObj))
    : D PyObj :=
  bound ← result (match bind_arguments (fn_spec (function d)) args kwargs with
                  | inl e => inl (Engine e)
                  | inr bound => inr bound
                  end);
  let context := Context_new in
  context ← check_arguments (all_args d) (accepts_parsed d) bound context;
  r ← fn_call (function d) args kwargs;
  _ ← engine (call_check (returns_parsed d) context r);
  mret r.

(** ** What the decorator's results are stated with *)

(** The node a specification stands for against the registry [reg]. *)
Definition denotes (reg : gmap string Contract) (spec : Spec) (c : Contract) : Prop :=
  match spec with
  | SpecObject (PyStr s) => parseString string_end (syntax_contract reg) s = ParseOk c
  | SpecType t => c = CheckType t
  | SpecObject _ => False
  end.

(** The contract and the value of every argument that has a contract, in
    the order of [all_args]. *)
Definition argument_pairs (all_args : list string) (accepts_parsed : gmap string Contract)
    (bound : gmap string PyObj) : list (Contract * PyObj) :=
  omap (fun arg => match accepts_parsed !! arg, bound !! arg with
                   | Some c, Some v => Some (c, v)
                   | _, _ => None
                   end) all_args.

(** A computation of the decorator that prints nothing, never writes the
    registry, never removes or replaces a cached node and keeps a sound
    cache sound. *)
Definition keeps_world {A} (m : D A) : Prop :=
  forall w r w', m w = (r, w') ->
    stdout w' = stdout w /\
    registrar (engine_state w') = registrar (engine_state w) /\
    (cache_sound (engine_state w) -> cache_sound (engine_state w')) /\
    (forall s c, string2contract (engine_state w) !! s = Some c ->
                 string2contract (engine_state w') !! s = Some c).

End Decorator.

(** ** A small library to run the engine on

    A grammar with a handful of productions, checks for them, and an
    arity-based [getcallargs]; enough to evaluate the operations on
    concrete strings and values. *)
Module Demo.

Definition is_digit (c : Ascii.ascii) : bool :=
  let n := Ascii.nat_of_ascii c in Nat.leb 48 n && Nat.leb n 57.

Definition is_letter (c : Ascii.ascii) : bool :=
  let n := Ascii.nat_of_ascii c in
  (Nat.leb 65 n && Nat.leb n 90) || (Nat.leb 97 n && Nat.leb n 122)
  || Nat.eqb n 95.

Definition is_word (c : Ascii.ascii) : bool := is_letter c || is_digit c.

(** The longest prefix of [s] made of characters in [p], and the rest. *)
Fixpoint span (p : Ascii.ascii -> bool) (s : string) : string * string :=
  match s with
  | "" => ("", "")
  | String c s' =>
      if p c then (String c (span p s').1, (span p s').2) else ("", s)
  end.

Fixpoint string_drop (n : nat) (s : string) : string :=
  match n, s with
  | S n', String _ s' => string_drop n' s'
  | _, _ => s
  end.

(** Modelled from the spec: the identifier-syntax rule of the absent
    [library.identifier_expression]: letters, digits and underscore, not
    starting with a digit. *)
Definition identifier_grammar (s : string) : Parsed string :=
  match s with
  | String c _ =>
      if is_letter c then Match (span is_word s).1 (span is_word s).2
      else NoMatch (mkParseError "Expected identifier" 1 0)
  | "" => NoMatch (mkParseError "Expected identifier" 1 0)
  end.

Definition end_of_text (instring unconsumed : string) : ParseError :=
  mkParseError "Expected end of text" 1
    (N.of_nat (String.length instring - String.length unconsumed)).

Definition productions : list (string * Contract) :=
  [ (couples_contract,
     Combine "list" (Clause ">0") (Combine "tuple" (CheckType "str") (Clause "*")));
    ("list[N]", Combine "list" (Clause "N") (Clause "*"));
    ("int,>0", Combine "," (CheckType "int") (Clause ">0"));
    ("int,<0", Combine "," (CheckType "int") (Clause "<0"));
    ("list", CheckType "list");
    ("tuple", CheckType "tuple");
    ("int", CheckType "int");
    ("str", CheckType "str");
    ("N", Clause "N");
    ("*", Clause "*") ].

Definition reserved : list string := ["list"; "tuple"; "int"; "str"; "N"].

Definition production (s : string) : Parsed Contract :=
  match find (fun p => String.prefix p.1 s) productions with
  | Some p => Match p.2 (string_drop (String.length p.1) s)
  | None => NoMatch (mkParseError "Expected contract" 1 0)
  end.

(** A registered identifier is an expression; the reserved words are not
    looked up in the registry. *)
Definition contract_grammar (reg : gmap string Contract) (s : string) : Parsed Contract :=
  let id := (span is_word s).1 in
  if bool_decide (id ∈ reserved) || bool_decide (id = "") then production s
  else match reg !! id with
       | Some _ => Match (Extension id) (span is_word s).2
       | None => production s
       end.

Definition type_name (v : PyObj) : string :=
  match v with
  | PyNone => "NoneType" | PyBool _ => "bool" | PyInt _ => "int"
  | PyStr _ => "str" | PyList _ => "list" | PyTuple _ => "tuple"
  | PyFunction _ => "function" | PyMethod _ _ => "instancemethod"
  | PyInstance cls _ => cls
  end.

Definition show_int (z : Z) : string :=
  match z with
  | Z0 => "0"
  | Zpos p => pretty (Npos p)
  | Zneg p => "-" ++ pretty (Npos p)
  end.

Fixpoint show (v : PyObj) : string :=
  let fix items (l : list PyObj) : string :=
    match l with
    | [] => ""
    | [x] => show x
    | x :: l' => show x ++ ", " ++ items l'
    end in
  match v with
  | PyNone => "None"
  | PyBool b => if b then "True" else "False"
  | PyInt z => show_int z
  | PyStr s => "'" ++ s ++ "'"
  | PyList l => "[" ++ items l ++ "]"
  | PyTuple l => "(" ++ items l ++ ")"
  | PyFunction f => "<function " ++ func_name f ++ ">"
  | PyMethod s f => "<bound method " ++ func_name f ++ ">"
  | PyInstance cls _ => "<" ++ cls ++ " object>"
  end.

Fixpoint show_contract (c : Contract) : string :=
  match c with
  | CheckType t => "CheckType(" ++ t ++ ")"
  | CheckCallable f => "CheckCallable(" ++ show f ++ ")"
  | SeparateContext c' => "SeparateContext(" ++ show_contract c' ++ ")"
  | Extension id => "Extension('" ++ id ++ "')"
  | Clause t => "Clause('" ++ t ++ "')"
  | Combine op a b =>
      "Combine('" ++ op ++ "', " ++ show_contract a ++ ", " ++ show_contract b ++ ")"
  end.

Fixpoint show_context (context : Context) : string :=
  match context with
  | [] => ""
  | (k, v) :: context' => k ++ "=" ++ show v ++ ";" ++ show_context context'
  end.

Definition bound (context : Context) (name : string) : option PyObj :=
  snd <$> find (fun kv => bool_decide (kv.1 = name)) context.

Definition violation (c : Contract) (v : PyObj) (why : string) : Exn + Context :=
  inl (ContractNotRespected (mkViolation why [(show_contract c, show v)])).

(** The predicates the demo knows by name; any other accepts. *)
Definition holds (f : PyObj) (v : PyObj) : bool :=
  match f, v with
  | PyFunction fn, PyInt z =>
      if bool_decide (func_name fn = "even") then Z.even z else true
  | PyFunction fn, _ => negb (bool_decide (func_name fn = "even"))
  | _, _ => true
  end.

(** The elements of a list, checked in order; the first failure is the
    one reported. *)
Fixpoint check_each (check : Context -> PyObj -> Exn + Context) (xs : list PyObj)
    (context : Context) : Exn + Context :=
  match xs with
  | [] => inr context
  | x :: xs' =>
      match check context x with
      | inr context' => check_each check xs' context'
      | inl e => inl e
      end
  end.

(** Checking is a traversal of the node; [fuel] bounds the chain of
    extension references followed through the registry. *)
Fixpoint check_node (fuel : nat) (reg : gmap string Contract) {struct fuel}
    : Contract -> Context -> PyObj -> Exn + Context :=
  fix go (c : Contract) (context : Context) (v : PyObj) {struct c} : Exn + Context :=
    match c with
    | CheckType t =>
        if bool_decide (type_name v = t) then inr context
        else violation c v ("Expected type " ++ t)
    | CheckCallable f =>
        if holds f v then inr context else violation c v "Value does not pass criteria"
    | SeparateContext c' =>
        match go c' Context_new v with
        | inr _ => inr context
        | inl e => inl e
        end
    | Extension id =>
        match fuel with
        | O => inl (ValueError "extension references nested too deep")
        | S fuel' =>
            match reg !! id with
            | Some c' => check_node fuel' reg c' context v
            | None => inl (ValueError ("Unknown extension " ++ id))
            end
        end
    | Clause t =>
        if bool_decide (t = "*") then inr context
        else if bool_decide (t = ">0") then
          match v with
          | PyInt z => if bool_decide (0 < z)%Z then inr context
                       else violation c v "Condition >0 not respected"
          | _ => violation c v "Expected a number"
          end
        else if bool_decide (t = "<0") then
          match v with
          | PyInt z => if bool_decide (z < 0)%Z then inr context
                       else violation c v "Condition <0 not respected"
          | _ => violation c v "Expected a number"
          end
        else
          match bound context t with
          | Some old =>
              if bool_decide (old = v) then inr context
              else violation c v ("Expected " ++ t ++ " = " ++ show old)
          | None => inr (context ++ [(t, v)])%list
          end
    | Combine op a b =>
        if bool_decide (op = ",") then
          match go a context v with
          | inr context' => go b context' v
          | inl e => inl e
          end
        else if bool_decide (op = "list") then
          match v with
          | PyList items =>
              match go a context (PyInt (Z.of_nat (length items))) with
              | inr context' =>
                  check_each (go b) items context'
              | inl e => inl e
              end
          | _ => violation c v "Expected a list"
          end
        else if bool_decide (op = "tuple") then
          match v with
          | PyTuple [x; y] =>
              match go a context x with
              | inr context' => go b context' y
              | inl e => inl e
              end
          | _ => violation c v "Expected a tuple of two"
          end
        else violation c v "Unknown combination"
    end.

(** Whether [fn] can be called with [n] positional arguments. *)
Definition binds (fn : Func) (n : nat) : bool :=
  Nat.leb (length (func_args fn) - func_defaults fn) n
  && (Nat.leb n (length (func_args fn)) || bool_decide (is_Some (func_varargs fn)))
  && bool_decide (func_kwonlyargs fn = []).

Definition callargs (f : PyObj) (args : list PyObj) : Exn + unit :=
  match f with
  | PyFunction fn =>
      if binds fn (length args) then inr tt
      else inl (TypeError (func_name fn ++ "() takes exactly "
                  ++ pretty (length (func_args fn)) ++ " arguments ("
                  ++ pretty (length args) ++ " given)"))
  | PyMethod self fn =>
      if binds fn (S (length args)) then inr tt
      else inl (TypeError (func_name fn ++ "() takes exactly "
                  ++ pretty (length (func_args fn)) ++ " arguments ("
                  ++ pretty (S (length args)) ++ " given)"))
  | _ => inl (TypeError (show f ++ " is not a Python function"))
  end.

#[export] Instance library : Library := {|
  syntax_contract := contract_grammar;
  identifier_expression := identifier_grammar;
  string_end := end_of_text;
  _check_contract := check_node 16;
  getcallargs := callargs;
  repr := show;
  describe_value := fun v => "Instance of " ++ type_name v ++ ": " ++ show v;
  str_Contract := show_contract;
  repr_Contract := show_contract;
  repr_Context := show_context;
  str_Where := fun w => "line " ++ pretty (Npos (where_line w)) ++ ", column "
                         ++ pretty (where_col w);
  str_ContractSyntaxError := fun msg w => msg;
  str_class := type_name
|}.

(** [lambda a, b: True], [lambda x: x % 2 == 0] named [even], and a
    one-argument predicate that accepts everything. *)
Definition two_arguments : PyObj := PyFunction (mkFunc "<lambda>" ["a"; "b"] 0 None None []).
Definition even : PyObj := PyFunction (mkFunc "even" ["x"] 0 None None []).
Definition anything : PyObj := PyFunction (mkFunc "anything" ["x"] 0 None None []).

(** Inputs for the runs below. *)

(** Two lists checked against ["list[N]"] share the one binding of [N]. *)
Definition two_lists : list (string * PyObj) :=
  [("list[N]", PyList [PyInt 1; PyInt 2; PyInt 3]);
   ("list[N]", PyList [PyInt 7; PyInt 8; PyInt 9])].

Definition positive_int : Contract := Combine "," (CheckType "int") (Clause ">0").
Definition negative_int : Contract := Combine "," (CheckType "int") (Clause "<0").

(** The state after ["pos"] was registered as ["int,>0"]. *)
Definition pos_registered : State :=
  (new_contract_impl (PyStr "pos") (PyStr "int,>0") initial).2.

Definition list_of_N : Contract := Combine "list" (Clause "N") (Clause "*").

End Demo.

(** ** A small glue to run the decorator on *)
Module DemoGlue.
Import Demo.

(** The lines of a text. *)
Fixpoint lines (fuel : nat) (s : string) : list string :=
  match fuel with
  | O => [s]
  | S fuel' =>
      let line := (span (fun c => negb (Nat.eqb (Ascii.nat_of_ascii c) 10)) s).1 in
      match (span (fun c => negb (Nat.eqb (Ascii.nat_of_ascii c) 10)) s).2 with
      | String _ rest => line :: lines fuel' rest
      | "" => [line]
      end
  end.

(** A line [:type name: T] documents a parameter, a line [:rtype: T] a
    return value. *)
Definition read_line (line : string) (found : DocAnnotations) : DocAnnotations :=
  if String.prefix ":type " line then
    let rest := string_drop 6 line in
    let name := (span (fun c => negb (Nat.eqb (Ascii.nat_of_ascii c) 58)) rest).1 in
    let t := string_drop 2 (span (fun c => negb (Nat.eqb (Ascii.nat_of_ascii c) 58)) rest).2 in
    mkDocAnnotations (doc_params found ++ [(name, t)]) (doc_returns found)
  else if String.prefix ":rtype: " line then
    mkDocAnnotations (doc_params found) (doc_returns found ++ [string_drop 8 line])
  else found.

Definition read_docstring (doc : option string) : DocAnnotations :=
  match doc with
  | None => mkDocAnnotations [] []
  | Some text =>
      foldl (fun found line => read_line line found) (mkDocAnnotations [] [])
        (lines (String.length text) text)
  end.

(** Positional arguments by position, keyword arguments by name. *)
Definition bind_by_position (f : Func) (args : list PyObj) (kwargs : list (string * PyObj))
    : Exn + gmap string PyObj :=
  if bool_decide (length args + length kwargs = length (func_args f)) then
    inr (list_to_map (zip (func_args f) args ++ kwargs))
  else inl (TypeError (func_name f ++ "() takes exactly "
              ++ pretty (length (func_args f)) ++ " arguments ("
              ++ pretty (length args + length kwargs) ++ " given)")).

Definition show_spec (spec : Spec) : string :=
  match spec with
  | SpecObject o => show o
  | SpecType t => "<type '" ++ t ++ "'>"
  end.

Fixpoint show_annotations (annotations : list (string * Spec)) : string :=
  match annotations with
  | [] => ""
  | (k, v) :: rest => "'" ++ k ++ "': " ++ show_spec v ++ ", " ++ show_annotations rest
  end.

#[export] Instance glue : Glue := {|
  parse_docstring_annotations := read_docstring;
  bind_arguments := bind_by_position;
  str_annotations := fun annotations => "{" ++ show_annotations annotations ++ "}"
|}.

(** [def longest(a, b)], which returns its second argument, documented
    with [:type a: ``list[N]``], [:type b: list[N]] and [:rtype: list[N]]. *)
Definition longest (annotations : list (string * Spec)) (doc : option string) : Function :=
  mkFunction (mkFunc "longest" ["a"; "b"] 0 None None []) annotations doc "demo"
    (fun args kwargs => mret (default PyNone (args !! 1))).

Definition longest_doc : string :=
  ":type a: ``list[N]``" ++ nl ++ ":type b: list[N]" ++ nl ++ ":rtype: list[N]".

Definition bare_doc : string :=
  ":type a: list[N]" ++ nl ++ ":type b: list[N]" ++ nl ++ ":rtype: list[N]".

Definition world : World := mkWorld initial [].

(** [longest] with both arguments and the result under ["list[N]"]. *)
Definition same_lengths : Decorated :=
  mkDecorated (longest [] None) ["a"; "b"]
    (<["a" := list_of_N]> (<["b" := list_of_N]> ∅)) list_of_N None "longest" "demo".

End DemoGlue.

(** * Properties *)

Ltac unfold_M :=
  unfold mbind, M_bind, mret, M_ret, raise, try_except, try_except_else in *.

Lemma checked_nil st : checked [] st = st.
Proof. destruct st. unfold checked. simpl. by rewrite app_nil_r. Qed.

Lemma checked_log c v pairs st :
  checked pairs (log (CallCheck c v) st) = checked ((c, v) :: pairs) st.
Proof. unfold checked, log. simpl. by rewrite <- app_assoc. Qed.

Section Parsing.
Context `{L : Library}.

(** A successful parse leaves the node in the cache under its string, adds
    nothing else and does not touch the registry. *)
Lemma parse_contract_string_inr s st c st' :
  parse_contract_string s st = (inr c, st') ->
  string2contract st' !! s = Some c /\
  registrar st' = registrar st /\
  (forall s', s' <> s -> string2contract st' !! s' = string2contract st !! s') /\
  (st' = st \/ string2contract st !! s = None).
Proof.
  unfold parse_contract_string. destruct (string2contract st !! s) as [c0|] eqn:Hc.
  - intros [= <- <-]. repeat split; auto.
  - destruct (parseString _ _ s); intros [= <- <-]. simpl. repeat split.
    + apply lookup_insert_eq.
    + intros s' Hs'. by apply lookup_insert_ne.
    + by right.
Qed.

(** A failed parse is a [ContractSyntaxError]; both tables are as before. *)
Lemma parse_contract_string_inl s st e st' :
  parse_contract_string s st = (inl e, st') ->
  st' = log (CallParseString s) st /\
  exists msg w, e = ContractSyntaxError msg w /\ where_string w = s.
Proof.
  unfold parse_contract_string. destruct (string2contract st !! s); [discriminate|].
  destruct (parseString _ _ s); intros [= <- <-]; eauto.
Qed.

Lemma parse_contract_string_sound s st r st' :
  cache_sound st -> parse_contract_string s st = (r, st') -> cache_sound st'.
Proof.
  intros Hst. unfold parse_contract_string.
  destruct (string2contract st !! s) eqn:Hc; [by intros [= <- <-]|].
  destruct (parseString _ _ s) eqn:Hp; intros [= <- <-]; try exact Hst.
  intros s' c'. simpl. destruct (decide (s = s')) as [<-|Hne].
  - rewrite lookup_insert_eq. by intros [= <-].
  - rewrite lookup_insert_ne by done. apply Hst.
Qed.

Lemma parse_contract_string_mono s st r st' s' c' :
  parse_contract_string s st = (r, st') ->
  string2contract st !! s' = Some c' -> string2contract st' !! s' = Some c'.
Proof.
  unfold parse_contract_string.
  destruct (string2contract st !! s) eqn:Hc; [by intros [= <- <-]|].
  destruct (parseString _ _ s) eqn:Hp; intros [= <- <-]; try done.
  simpl. intros H. rewrite lookup_insert_ne; [done | congruence].
Qed.

Lemma parse_contract_string_hit s st c :
  string2contract st !! s = Some c -> parse_contract_string s st = (inr c, st).
Proof. intros H. unfold parse_contract_string. by rewrite H. Qed.

(** Parsing never writes to the registry. *)
Lemma parse_contract_string_registrar s st r st' :
  parse_contract_string s st = (r, st') -> registrar st' = registrar st.
Proof.
  unfold parse_contract_string. destruct (string2contract st !! s); [by intros [= <- <-] |].
  destruct (parseString _ _ s); by intros [= <- <-].
Qed.

End Parsing.

(** ** The demo library meets the laws *)

Lemma Demo_couples_each (reg : gmap string Contract) (couples : list (string * PyObj)) :
  Demo.check_each
    (Demo.check_node 16 reg (Combine "tuple" (CheckType "str") (Clause "*")))
    (map (fun x => PyTuple [PyStr x.1; x.2]) couples) Context_new = inr Context_new.
Proof. induction couples as [| [s v] couples IH]; [reflexivity | exact IH]. Qed.

#[export] Instance Demo_laws : @LibraryLaws Demo.library.
Proof.
  split.
  - exists (Combine "list" (Clause ">0") (Combine "tuple" (CheckType "str") (Clause "*"))).
    intros reg. split; [reflexivity |].
    intros [| x couples] Hne; [done |]. exists Context_new.
    exact (Demo_couples_each reg (x :: couples)).
  - intros reg c unconsumed. discriminate.
  - intros reg c context value.
    change (_check_contract reg (SeparateContext c) context value)
      with (match Demo.check_node 16 reg c Context_new value with
            | inr _ => inr context
            | inl e => inl e
            end).
    change (_check_contract reg c Context_new value)
      with (Demo.check_node 16 reg c Context_new value).
    destruct (Demo.check_node 16 reg c Context_new value); eauto.
Qed.

(** ** The parse cache *)

Section Cache.
Context `{L : Library}.

(** C4. Once [parse_contract_string s] has returned a node, the node is
    stored in the cache under the exact string [s], no other key of the
    cache has changed, and a second call with [s] returns that stored node
    and leaves the whole state as it is: the log gains no call, so the
    grammar engine is not run again. The second answer depends on the cache
    alone, whatever the registry has become in between. *)
Theorem parse_contract_string_cached (s : string) (st st' : State) (c : Contract) :
  parse_contract_string s st = (inr c, st') ->
  string2contract st' !! s = Some c /\
  parse_contract_string s st' = (inr c, st') /\
  calls (parse_contract_string s st').2 = calls st' /\
  (forall reg log, parse_contract_string s (mkState (string2contract st') reg log)
                   = (inr c, mkState (string2contract st') reg log)) /\
  (forall s', s' <> s -> string2contract st' !! s' = string2contract st !! s').
Proof.
  intros H. destruct (parse_contract_string_inr _ _ _ _ H) as (Hc & _ & Hother & _).
  assert (Hhit : forall reg log,
             parse_contract_string s (mkState (string2contract st') reg log)
             = (inr c, mkState (string2contract st') reg log)).
  { intros reg log. unfold parse_contract_string. simpl. by rewrite Hc. }
  assert (H2 : parse_contract_string s st' = (inr c, st')).
  { specialize (Hhit (registrar st') (calls st')). by destruct st'. }
  repeat split; auto. by rewrite H2.
Qed.

(** C5. In a state whose cache is sound, a string the grammar engine fails
    on, recoverably or fatally, makes [parse_contract_string] raise a
    [ContractSyntaxError] that carries the engine's message and the place:
    the offending string, the line (counted from one) and the column
    (counted from zero) of the failure. The empty string is such a string,
    and so is every string of which the grammar matches a prefix and leaves
    input unconsumed. A failing call returns no node and leaves the cache
    and the registry as they were. *)
Theorem parse_contract_string_malformed `{LL : !LibraryLaws} (st : State) :
  cache_sound st ->
  (forall s e,
      parseString string_end (syntax_contract (registrar st)) s = ParseException e \/
      parseString string_end (syntax_contract (registrar st)) s = ParseFatalError e ->
      parse_contract_string s st
      = (inl (ContractSyntaxError (pe_str e) (mkWhere s (lineno e) (col e))),
         log (CallParseString s) st) /\
      (1 <= Z.pos (lineno e))%Z /\ (0 <= Z.of_N (col e))%Z) /\
  (exists e,
      parse_contract_string "" st
      = (inl (ContractSyntaxError (pe_str e) (mkWhere "" (lineno e) (col e))),
         log (CallParseString "") st)) /\
  (forall s c unconsumed,
      syntax_contract (registrar st) s = Match c unconsumed -> unconsumed <> "" ->
      exists e,
        parse_contract_string s st
        = (inl (ContractSyntaxError (pe_str e) (mkWhere s (lineno e) (col e))),
           log (CallParseString s) st)) /\
  (forall s e st',
      parse_contract_string s st = (inl e, st') ->
      string2contract st' = string2contract st /\ registrar st' = registrar st).
Proof.
  intros Hsound.
  assert (Hfail : forall s e,
      parseString string_end (syntax_contract (registrar st)) s = ParseException e \/
      parseString string_end (syntax_contract (registrar st)) s = ParseFatalError e ->
      parse_contract_string s st
      = (inl (ContractSyntaxError (pe_str e) (mkWhere s (lineno e) (col e))),
         log (CallParseString s) st)).
  { intros s e He. unfold parse_contract_string.
    destruct (string2contract st !! s) as [c|] eqn:Hc.
    - apply Hsound in Hc. destruct He as [He|He]; congruence.
    - destruct He as [-> | ->]; reflexivity. }
  split; [| split; [| split]].
  - intros s e He. split; [by apply Hfail | lia].
  - pose proof (empty_string_rejected (registrar st)) as Hempty.
    destruct (syntax_contract (registrar st) "") as [c u|e|e] eqn:Hg.
    + by destruct (Hempty c u).
    + exists e. apply Hfail. left. unfold parseString. by rewrite Hg.
    + exists e. apply Hfail. right. unfold parseString. by rewrite Hg.
  - intros s c u Hg Hu. exists (string_end s u). apply Hfail. left.
    unfold parseString. rewrite Hg. by rewrite bool_decide_eq_false_2.
  - intros s e st' H. apply parse_contract_string_inl in H as [-> _]. by split.
Qed.

End Cache.

Lemma cache_sound_initial `{L : Library} : cache_sound initial.
Proof. intros s c H. simpl in H. by rewrite lookup_empty in H. Qed.


(** ** Checking several contracts in one context *)

Section Checking.
Context `{L : Library}.

Lemma check_in_order_attempted reg context pairs context' :
  check_in_order reg context pairs = inr context' ->
  attempted reg context pairs = pairs.
Proof.
  revert context. induction pairs as [| [c v] pairs IH]; intros context; [done |].
  simpl. destruct (_check_contract reg c context v) as [e | context1]; [done |].
  intros H. f_equal. by apply IH.
Qed.

Lemma check_in_order_stops reg context before c v rest context' e :
  check_in_order reg context before = inr context' ->
  _check_contract reg c context' v = inl e ->
  check_in_order reg context (before ++ (c, v) :: rest)%list = inl e /\
  attempted reg context (before ++ (c, v) :: rest)%list = (before ++ [(c, v)])%list.
Proof.
  revert context. induction before as [| [c0 v0] before IH]; intros context.
  - intros [= ->] He. simpl. by rewrite He.
  - simpl. destruct (_check_contract reg c0 context v0) as [e0 | context1]; [done |].
    intros Hd He. destruct (IH _ Hd He) as [-> ->]. done.
Qed.

(** The loop over the indices is the run over the pairs, and the log shows
    the checks that were made. *)
Lemma check_loop_in_order (C : list Contract) (values : list PyObj) :
  length C = length values ->
  forall m k context st, k + m = length C ->
    check_loop C values (seq k m) context st
    = (check_in_order (registrar st) context (drop k (zip C values)),
       checked (attempted (registrar st) context (drop k (zip C values))) st).
Proof.
  intros Hlen m. induction m as [| m IH]; intros k context st Hk.
  - simpl. rewrite drop_ge by (rewrite length_zip; lia). simpl.
    by rewrite checked_nil.
  - simpl.
    destruct (lookup_lt_is_Some_2 C k) as [c Hc]; [lia |].
    destruct (lookup_lt_is_Some_2 values k) as [v Hv]; [lia |].
    rewrite Hc, Hv.
    assert (Hz : zip C values !! k = Some (c, v)).
    { rewrite lookup_zip_with, Hc. simpl. by rewrite Hv. }
    rewrite (drop_S _ _ _ Hz). simpl. unfold_M. unfold call_check.
    destruct (_check_contract (registrar st) c context v) as [e | context1].
    + by rewrite <- checked_log, checked_nil.
    + rewrite IH by lia. simpl. by rewrite checked_log.
Qed.

Lemma parse_loop_spec (contracts : list string) :
  forall C st r st', parse_loop contracts C st = (r, st') ->
    registrar st' = registrar st /\
    (forall s c, string2contract st !! s = Some c -> string2contract st' !! s = Some c) /\
    (cache_sound st -> cache_sound st') /\
    match r with
    | inr C' => exists D, C' = (C ++ D)%list /\
        Forall2 (fun s c => string2contract st' !! s = Some c) contracts D
    | inl e => exists msg w, e = ContractSyntaxError msg w
    end.
Proof.
  induction contracts as [| x contracts IH]; intros C st r st'.
  - intros [= <- <-]. repeat split; auto. exists []. by rewrite app_nil_r.
  - simpl. unfold_M. destruct (parse_contract_string x st) as [[e | c] st1] eqn:Hp.
    + intros [= <- <-]. destruct (parse_contract_string_inl _ _ _ _ Hp) as (-> & msg & w & -> & _).
      repeat split; eauto.
    + intros Hrest. destruct (IH _ _ _ _ Hrest) as (Hreg & Hmono & Hsound & Hr).
      destruct (parse_contract_string_inr _ _ _ _ Hp) as (Hc & Hreg1 & _ & _).
      split; [congruence |]. split; [| split].
      * intros s c0 H. apply Hmono. by eapply parse_contract_string_mono.
      * intros H. apply Hsound. by eapply parse_contract_string_sound.
      * destruct r as [e | C']; [done |]. destruct Hr as (D & -> & HD).
        exists (c :: D). split; [by rewrite <- app_assoc |].
        constructor; [by apply Hmono | done].
Qed.

Lemma check_contracts_spec (contracts : list string) (values : list PyObj) (st : State) :
  length contracts = length values ->
  check_contracts contracts values st
  = match parse_loop contracts [] st with
    | (inl e, st1) => (inl e, st1)
    | (inr C, st1) =>
        (check_in_order (registrar st1) Context_new (zip C values),
         checked (attempted (registrar st1) Context_new (zip C values)) st1)
    end.
Proof.
  intros Hlen. unfold check_contracts. rewrite bool_decide_eq_true_2 by done.
  unfold_M. destruct (parse_loop contracts [] st) as [[e | C] st1] eqn:Hp; [done |].
  destruct (parse_loop_spec _ _ _ _ _ Hp) as (_ & _ & _ & D & -> & HD).
  apply Forall2_length in HD. simpl.
  rewrite (check_loop_in_order D values) by (simpl; lia). by rewrite drop_0.
Qed.

Lemma try_except_described {A} (m : M A) sep desc st :
  try_except m (reraise_described sep desc) st
  = match m st with
    | (inr a, st') => (inr a, st')
    | (inl e, st') => (inl (described sep desc e), st')
    end.
Proof.
  unfold try_except. destruct (m st) as [[e | a] st']; [| done]. by destruct e.
Qed.

(** A string the grammar accepts parses, from the cache or afresh. *)
Lemma parse_contract_string_accepts s g st :
  cache_sound st ->
  parseString string_end (syntax_contract (registrar st)) s = ParseOk g ->
  exists st1, parse_contract_string s st = (inr g, st1) /\
    registrar st1 = registrar st /\ cache_sound st1.
Proof.
  intros Hsound Hg.
  destruct (parse_contract_string s st) as [r st1] eqn:Hp. exists st1.
  assert (Hs1 := parse_contract_string_sound _ _ _ _ Hsound Hp).
  revert Hp. unfold parse_contract_string.
  destruct (string2contract st !! s) as [c |] eqn:Hc.
  - apply Hsound in Hc. intros [= <- <-]. split; [congruence | done].
  - rewrite Hg. intros [= <- <-]. done.
Qed.

(** The contract [check_multiple] puts on its argument lets every
    non-empty list of couples through. *)
Lemma couples_accepted `{LL : !LibraryLaws} (couples : list (string * PyObj)) (st : State) :
  cache_sound st -> couples <> [] ->
  exists context0 st0,
    check (PyStr couples_contract) (couples_value couples) (Some couples_expected) st
    = (inr context0, st0) /\
    registrar st0 = registrar st /\ cache_sound st0.
Proof.
  intros Hsound Hne. destruct couples_contract_accepts as [g Hg].
  destruct (Hg (registrar st)) as [Hparse _].
  destruct (parse_contract_string_accepts _ _ _ Hsound Hparse) as (st1 & Hp & Hreg & Hs1).
  destruct (Hg (registrar st1)) as [_ Hacc]. destruct (Hacc couples Hne) as [context0 Hc].
  exists context0, (log (CallCheck g (couples_value couples)) st1).
  split; [| by split].
  unfold check. rewrite try_except_described, check_contracts_spec by done.
  simpl. unfold_M. rewrite Hp. simpl. rewrite Hc. simpl.
  destruct st1; reflexivity.
Qed.

(** C1. For a non-empty list of couples, in a state whose cache is sound,
    [check_multiple] first lets the list through its own input contract.
    It then parses every contract string with [parse_contract_string]; a
    syntax error ends the call before any check is made. When all strings
    parse, each is in the cache with its node, and the nodes are checked
    against their values in order, all against one context that starts
    empty: if every check succeeds, the context the last check left is
    returned and the log shows one check per couple; if the check of a couple
    raises after the couples before it succeeded, that exception is raised
    (a violation with its error described) and the log shows the checks up
    to that couple and none after it. *)
Theorem check_multiple_shared_context `{LL : !LibraryLaws}
    (couples : list (string * PyObj)) (desc : option string) (st : State) :
  cache_sound st -> couples <> [] ->
  exists context0 st0,
    check (PyStr couples_contract) (couples_value couples) (Some couples_expected) st
    = (inr context0, st0) /\
    match parse_loop (map fst couples) [] st0 with
    | (inl e, st1) => check_multiple couples desc st = (inl e, st1)
    | (inr C, st1) =>
        let pairs := zip C (map snd couples) in
        let reg := registrar st in
        length C = length couples /\
        Forall2 (fun s c => string2contract st1 !! s = Some c) (map fst couples) C /\
        (forall context,
            check_in_order reg Context_new pairs = inr context ->
            check_multiple couples desc st = (inr context, checked pairs st1)) /\
        (forall before c v rest context e,
            pairs = (before ++ (c, v) :: rest)%list ->
            check_in_order reg Context_new before = inr context ->
            _check_contract reg c context v = inl e ->
            check_multiple couples desc st
            = (inl (described (nl ++ nl ++ "Details:" ++ nl) desc e),
               checked (before ++ [(c, v)])%list st1))
    end.
Proof.
  intros Hsound Hne.
  destruct (couples_accepted couples st Hsound Hne) as (context0 & st0 & Hguard & Hreg0 & _).
  exists context0, st0. split; [exact Hguard |].
  assert (Hcm : check_multiple couples desc st
                = match parse_loop (map fst couples) [] st0 with
                  | (inl e, st1) => (inl e, st1)
                  | (inr C, st1) =>
                      (match check_in_order (registrar st1) Context_new
                               (zip C (map snd couples)) with
                       | inr context => inr context
                       | inl e => inl (described (nl ++ nl ++ "Details:" ++ nl) desc e)
                       end,
                       checked (attempted (registrar st1) Context_new
                                  (zip C (map snd couples))) st1)
                  end).
  { unfold check_multiple. unfold mbind at 1, M_bind at 1. rewrite Hguard.
    rewrite try_except_described, check_contracts_spec by (by rewrite !length_map).
    destruct (parse_loop (map fst couples) [] st0) as [[e | C] st1] eqn:Hp.
    - destruct (parse_loop_spec _ _ _ _ _ Hp) as (_ & _ & _ & msg & w & ->). done.
    - by destruct (check_in_order _ _ _). }
  destruct (parse_loop (map fst couples) [] st0) as [[e | C] st1] eqn:Hp; [exact Hcm |].
  destruct (parse_loop_spec _ _ _ _ _ Hp) as (Hreg1 & _ & _ & D & HD & HF).
  simpl in HD. subst D. rewrite Hreg1, Hreg0 in Hcm. simpl.
  split; [| split; [| split]].
  - apply Forall2_length in HF. by rewrite length_map in HF.
  - exact HF.
  - intros context Hok. rewrite Hcm, Hok. by rewrite (check_in_order_attempted _ _ _ _ Hok).
  - intros before c v rest context e Hpairs Hdone He.
    rewrite Hcm, Hpairs.
    destruct (check_in_order_stops _ _ _ _ _ rest _ _ Hdone He) as [-> ->]. done.
Qed.

End Checking.

(** ** Messages *)

Lemma string_app_assoc (a b c : string) : (a ++ b) ++ c = a ++ b ++ c.
Proof.
  induction a as [| x a IH]; [done |].
  change (String x ((a ++ b) ++ c) = String x (a ++ b ++ c)). by f_equal.
Qed.

Lemma string_app_nil_r (a : string) : a ++ "" = a.
Proof.
  induction a as [| x a IH]; [done |].
  change (String x (a ++ "") = String x a). by f_equal.
Qed.

Lemma mentions_refl (x : string) : mentions x x.
Proof. exists "", "". simpl. by rewrite string_app_nil_r. Qed.

Lemma mentions_app_l (m b x : string) : mentions m x -> mentions (m ++ b) x.
Proof.
  intros (p & q & ->). exists p, (q ++ b). by rewrite !string_app_assoc.
Qed.

Lemma mentions_app_r (a m x : string) : mentions m x -> mentions (a ++ m) x.
Proof.
  intros (p & q & ->). exists (a ++ p), q. by rewrite !string_app_assoc.
Qed.

Ltac grammar_calls :=
  repeat first [ apply Forall_nil_2
               | apply Forall_cons_2; [first [by left | by right] |] ].

Ltac mentions :=
  solve [ apply mentions_refl
        | apply mentions_app_l; mentions
        | apply mentions_app_r; mentions ].

(** ** The steps of a registration *)

Section Registration.
Context `{L : Library}.

Lemma check_not_known_spec (identifier : string) (st : State) :
  check_not_known identifier st
  = match registrar st !! identifier with
    | Some _ => (inr tt, st)
    | None =>
        match parse_contract_string identifier st with
        | (inr c, st1) => (inl (ValueError (overwrites identifier c)), st1)
        | (inl _, st1) => (inr tt, st1)
        end
    end.
Proof.
  unfold check_not_known. destruct (registrar st !! identifier); [done |].
  unfold_M. destruct (parse_contract_string identifier st) as [[e | c] st1] eqn:Hp; [| done].
  by destruct (parse_contract_string_inl _ _ _ _ Hp) as (_ & msg & w & -> & _).
Qed.

(** Whatever its outcome, the first step writes nothing to the registry,
    removes nothing from the cache and calls nothing but the grammar, on
    the identifier. *)
Lemma check_not_known_frame (identifier : string) (st : State) r st1 :
  check_not_known identifier st = (r, st1) ->
  registrar st1 = registrar st /\
  (forall s c, string2contract st !! s = Some c -> string2contract st1 !! s = Some c) /\
  (calls st1 = calls st \/ calls st1 = (calls st ++ [CallParseString identifier])%list) /\
  (forall e, r = inl e -> exists msg, e = ValueError msg).
Proof.
  rewrite check_not_known_spec. destruct (registrar st !! identifier).
  { intros [= <- <-]. repeat split; auto. intros e; discriminate. }
  destruct (parse_contract_string identifier st) as [[e | c] st'] eqn:Hp; intros [= <- <-].
  - destruct (parse_contract_string_inl _ _ _ _ Hp) as (-> & _).
    repeat split; auto. intros e'; discriminate.
  - destruct (parse_contract_string_inr _ _ _ _ Hp) as (_ & Hreg & _ & Hst).
    split; [done |]. split; [intros s c0; by eapply parse_contract_string_mono |].
    split; [| intros e [= <-]; eauto].
    destruct Hst as [-> | Hnone]; [by left |]. right.
    revert Hp. unfold parse_contract_string. rewrite Hnone.
    destruct (parseString _ _ _); intros [= <- <-]; done.
Qed.

Lemma check_identifier_inr (identifier : string) (st st2 : State) :
  check_identifier identifier st = (inr tt, st2) ->
  st2 = log (CallIdentifier identifier) st /\
  exists tokens, parseString string_end identifier_expression identifier = ParseOk tokens.
Proof.
  unfold check_identifier. destruct (parseString _ _ _) as [t | e | e]; intros [= <-].
  split; eauto.
Qed.

Lemma check_identifier_accepts (identifier : string) (st : State) tokens :
  parseString string_end identifier_expression identifier = ParseOk tokens ->
  check_identifier identifier st = (inr tt, log (CallIdentifier identifier) st).
Proof. intros H. unfold check_identifier. by rewrite H. Qed.

(** The introspection of a callable: its outcome does not depend on the
    state, and it changes nothing but the log. *)
Lemma can_accept_exactly_one_argument_frame (callable_thing : PyObj) (st st0 : State) :
  (can_accept_exactly_one_argument callable_thing st).1
  = (can_accept_exactly_one_argument callable_thing st0).1 /\
  string2contract (can_accept_exactly_one_argument callable_thing st).2 = string2contract st /\
  registrar (can_accept_exactly_one_argument callable_thing st).2 = registrar st /\
  exists calls', calls (can_accept_exactly_one_argument callable_thing st).2
                 = (calls st ++ calls')%list /\
    Forall (fun c => exists f args, c = CallGetcallargs f args) calls'.
Proof.
  assert (Hnil : forall st, exists calls', calls st = (calls st ++ calls')%list /\
                   Forall (fun c => exists f args, c = CallGetcallargs f args) calls').
  { intros s. exists []. by rewrite app_nil_r. }
  assert (Hone : forall f args s, exists calls',
             calls (try_getcallargs f args s).2 = (calls s ++ calls')%list /\
             Forall (fun c => exists f args, c = CallGetcallargs f args) calls').
  { intros f args s. exists [CallGetcallargs f args]. split; [| by repeat econstructor].
    unfold try_getcallargs. by destruct (getcallargs f args) as [[] |]. }
  assert (Htry : forall f args s s0,
             (try_getcallargs f args s).1 = (try_getcallargs f args s0).1 /\
             string2contract (try_getcallargs f args s).2 = string2contract s /\
             registrar (try_getcallargs f args s).2 = registrar s).
  { intros f args s s0. unfold try_getcallargs. by destruct (getcallargs f args) as [[] |]. }
  unfold can_accept_exactly_one_argument, introspected, getattr_call. unfold_M.
  destruct callable_thing as [ | | | | | | f | self f | cls [f |]]; simpl;
    try (destruct (Htry (PyFunction f) [PyStr "test"] st st0) as (? & ? & ?));
    try (destruct (Htry (PyFunction f) [self; PyStr "test"] st st0) as (? & ? & ?));
    try (destruct (Htry (PyMethod (PyInstance cls (Some f)) f) [PyStr "test"] st st0)
           as (? & ? & ?));
    repeat split; auto.
Qed.

(** The step on the condition: the bare contract it returns is the parse of
    a string definition, now in the cache, or the wrapped callable; it
    writes nothing to the registry and removes nothing from the cache. *)
Lemma check_condition_frame (condition : PyObj) (st : State) r st3 :
  check_condition condition st = (r, st3) ->
  registrar st3 = registrar st /\
  (forall s c, string2contract st !! s = Some c -> string2contract st3 !! s = Some c) /\
  forall b, r = inr b ->
    match condition with
    | PyStr definition =>
        string2contract st3 !! definition = Some b /\
        parse_contract_string definition st = (inr b, st3)
    | _ => b = CheckCallable condition /\ hasattr_call condition = true
    end.
Proof.
  assert (Hcall : forall definition, condition <> PyStr definition ->
    (if hasattr_call condition then
       r ← can_accept_exactly_one_argument condition;
       (let '(can, error) := r in
        if (can : bool) then mret (CheckCallable condition)
        else raise (ValueError ("The given callable " ++ repr condition
                      ++ " should be able to accept "
                      ++ "exactly one argument. Error: " ++ default "None" error ++ " ")))
     else
       raise (ValueError ("I need either a string or a callable for the "
                ++ "condition; found " ++ describe_value condition ++ "."))) st = (r, st3) ->
    registrar st3 = registrar st /\
    (forall s c, string2contract st !! s = Some c -> string2contract st3 !! s = Some c) /\
    forall b, r = inr b -> b = CheckCallable condition /\ hasattr_call condition = true).
  { intros _ _. destruct (hasattr_call condition); [| by intros [= <- <-]].
    unfold_M.
    destruct (can_accept_exactly_one_argument_frame condition st st) as (_ & Hc & Hr & _).
    destruct (can_accept_exactly_one_argument condition st) as [[e | [can err]] st'];
      simpl in Hc, Hr.
    - intros [= <- <-]. rewrite Hc. by repeat split.
    - destruct can; intros [= <- <-]; rewrite Hc; repeat split; auto; congruence. }
  destruct condition as [ | | | definition | | | | | ];
    try (apply (Hcall ""); discriminate).
  unfold check_condition, try_except.
  destruct (parse_contract_string definition st) as [[e | b] st1] eqn:Hp.
  - destruct (parse_contract_string_inl _ _ _ _ Hp) as (-> & msg & w & -> & _).
    intros [= <- <-]. by repeat split.
  - intros [= <- <-]. destruct (parse_contract_string_inr _ _ _ _ Hp) as (Hc & Hreg & _ & _).
    split; [done |]. split; [intros s c; by eapply parse_contract_string_mono |].
    by intros b' [= <-].
Qed.

Lemma define_or_compare_inr (identifier : string) (contract : Contract) (st st4 : State) :
  define_or_compare identifier contract st = (inr tt, st4) ->
  registrar st4 !! identifier = Some contract /\
  string2contract st4 = string2contract st /\ calls st4 = calls st /\
  (forall old, registrar st !! identifier = Some old -> old = contract /\ st4 = st) /\
  (registrar st !! identifier = None ->
   registrar st4 = <[identifier := contract]> (registrar st)).
Proof.
  unfold define_or_compare. destruct (registrar st !! identifier) as [old |] eqn:Hold.
  - case_bool_decide as Heq; intros [= <-]. subst old.
    repeat split; auto; try congruence; discriminate.
  - intros [= <-]. simpl.
    repeat split; auto; try discriminate. apply lookup_insert_eq.
Qed.

Lemma check_parse_now_inr (identifier : string) (st st' : State) :
  check_parse_now identifier st = (inr tt, st') ->
  parse_contract_string identifier st = (inr (Extension identifier), st').
Proof.
  unfold check_parse_now. unfold_M.
  destruct (parse_contract_string identifier st) as [[e | c] st1] eqn:Hp.
  - destruct (parse_contract_string_inl _ _ _ _ Hp) as (_ & msg & w & -> & _). discriminate.
  - case_bool_decide as Hc; [| discriminate]. by intros [= <-]; subst c.
Qed.

(** A registration that returns went through its five steps. *)
Lemma new_contract_impl_inr (identifier : string) (condition : PyObj)
    (st st' : State) (b : Contract) :
  new_contract_impl (PyStr identifier) condition st = (inr b, st') ->
  exists st1 st2 st3 st4,
    check_not_known identifier st = (inr tt, st1) /\
    check_identifier identifier st1 = (inr tt, st2) /\
    check_condition condition st2 = (inr b, st3) /\
    define_or_compare identifier (SeparateContext b) st3 = (inr tt, st4) /\
    check_parse_now identifier st4 = (inr tt, st').
Proof.
  unfold new_contract_impl. unfold_M.
  destruct (check_not_known identifier st) as [[e | []] st1] eqn:H1; [discriminate |].
  destruct (check_identifier identifier st1) as [[e | []] st2] eqn:H2; [discriminate |].
  destruct (check_condition condition st2) as [[e | b'] st3] eqn:H3; [discriminate |].
  destruct (define_or_compare identifier (SeparateContext b') st3) as [[e | []] st4] eqn:H4;
    [discriminate |].
  destruct (check_parse_now identifier st4) as [[e | []] st5] eqn:H5; [discriminate |].
  intros [= <- <-]. by exists st1, st2, st3, st4.
Qed.

Lemma new_contract_impl_registers (identifier : string) (condition : PyObj)
    (st st' : State) (b : Contract) :
  new_contract_impl (PyStr identifier) condition st = (inr b, st') ->
  registered st' identifier (SeparateContext b) /\
  (forall definition, condition = PyStr definition ->
     string2contract st' !! definition = Some b) /\
  ((forall definition, condition <> PyStr definition) -> b = CheckCallable condition).
Proof.
  intros H. destruct (new_contract_impl_inr _ _ _ _ _ H)
    as (st1 & st2 & st3 & st4 & H1 & H2 & H3 & H4 & H5).
  destruct (check_identifier_inr _ _ _ H2) as (-> & Hid).
  destruct (check_condition_frame _ _ _ _ H3) as (_ & _ & Hb).
  specialize (Hb b eq_refl).
  destruct (define_or_compare_inr _ _ _ _ H4) as (Hstored & Hcache4 & _).
  apply check_parse_now_inr in H5.
  destruct (parse_contract_string_inr _ _ _ _ H5) as (Hext & Hreg5 & _ & _).
  split; [| split].
  - split; [congruence | by split].
  - intros definition ->. destruct Hb as [Hb _].
    eapply parse_contract_string_mono; [exact H5 |]. by rewrite Hcache4.
  - intros Hne. destruct condition; try apply Hb.
    by destruct (Hne s).
Qed.

End Registration.

(** ** Registering an extension *)

Lemma SeparateContext_neq (c : Contract) : c <> SeparateContext c.
Proof. induction c; congruence. Qed.

Section Extensions.
Context `{L : Library}.

(** C3, as the code has it. After [new_contract_impl] has returned for an
    identifier and a definition, the registry maps the identifier to the
    isolation wrapper of the accepted node (the parse of a string
    definition, or the wrapped callable), and parsing the identifier yields
    the extension reference for it, from the cache. The reference is a
    node of its own kind, different from the isolation wrapper: it names
    the identifier, which the registry resolves to the wrapper. The call
    returns a contract node. *)
Theorem register_then_parse (identifier : string) (condition : PyObj)
    (st st' : State) (b : Contract) :
  new_contract_impl (PyStr identifier) condition st = (inr b, st') ->
  registrar st' !! identifier = Some (SeparateContext b) /\
  (forall definition, condition = PyStr definition ->
     parse_contract_string definition st' = (inr b, st')) /\
  ((forall definition, condition <> PyStr definition) -> b = CheckCallable condition) /\
  parse_contract_string identifier st' = (inr (Extension identifier), st') /\
  Extension identifier <> SeparateContext b.
Proof.
  intros H. destruct (new_contract_impl_registers _ _ _ _ _ H)
    as ((Hstored & _ & Hext) & Hdef & Hcall).
  split; [exact Hstored |]. split; [| split; [exact Hcall | split]].
  - intros definition Hd. apply parse_contract_string_hit. by apply Hdef.
  - by apply parse_contract_string_hit.
  - discriminate.
Qed.

(** C10. A registration that returns hands back the bare node of the
    definition (the parse of a string definition, or the wrapped callable),
    while the registry holds the isolation wrapper of that node under the
    identifier; the two differ. The wrapper accepts a value exactly when the
    bare node accepts it in a fresh context, and hands the caller's context
    back as it was; a check run on the returned node is the bare node's own
    check, so at top level it returns whatever bindings that node made,
    where the registered node returns none. *)
Theorem new_contract_impl_returns_bare `{LL : !LibraryLaws} (identifier : string)
    (condition : PyObj) (st st' : State) (b : Contract) :
  new_contract_impl (PyStr identifier) condition st = (inr b, st') ->
  (forall definition, condition = PyStr definition ->
     string2contract st' !! definition = Some b) /\
  ((forall definition, condition <> PyStr definition) -> b = CheckCallable condition) /\
  registrar st' !! identifier = Some (SeparateContext b) /\
  b <> SeparateContext b /\
  (forall value context,
     (_check_contract (registrar st') (SeparateContext b) context value = inr context <->
      exists bindings, _check_contract (registrar st') b Context_new value = inr bindings)) /\
  (forall value bindings,
     (Contract_check b value st').1 = inr bindings ->
     _check_contract (registrar st') b Context_new value = inr bindings /\
     (Contract_check (SeparateContext b) value st').1 = inr Context_new).
Proof.
  intros H. destruct (new_contract_impl_registers _ _ _ _ _ H)
    as ((Hstored & _ & _) & Hdef & Hcall).
  assert (Hiso : forall value context,
    _check_contract (registrar st') (SeparateContext b) context value = inr context <->
    exists bindings, _check_contract (registrar st') b Context_new value = inr bindings).
  { intros value context.
    pose proof (separate_context_isolates (registrar st') b context value) as Hlaw.
    destruct (_check_contract (registrar st') b Context_new value) as [e | bindings].
    - destruct Hlaw as [e' He']. rewrite He'. split; [discriminate | by intros [? ?]].
    - split; [eauto | done]. }
  repeat split; auto using SeparateContext_neq.
  - by apply Hiso.
  - by apply Hiso.
  - unfold Contract_check, call_check. simpl. apply Hiso. eauto.
Qed.

(** The steps of a registration for an identifier that is registered. *)
Lemma redefinition_steps (identifier : string) (old : Contract) (condition : PyObj)
    (st st3 : State) (b : Contract) :
  registered st identifier old ->
  check_condition condition (log (CallIdentifier identifier) st) = (inr b, st3) ->
  registrar st3 = registrar st /\
  new_contract_impl (PyStr identifier) condition st
  = if bool_decide (SeparateContext b = old) then (inr b, st3)
    else (inl (ValueError
                 ((("Tried to redefine " ++ repr (PyStr identifier)
                    ++ " with a definition that looks "
                    ++ "different to me." ++ nl)
                   ++ " - old: " ++ repr_Contract old ++ nl)
                  ++ " - new: " ++ repr_Contract (SeparateContext b) ++ nl)), st3).
Proof.
  intros (Hold & [tokens Hid] & Hext) Hcond.
  destruct (check_condition_frame _ _ _ _ Hcond) as (Hreg & Hmono & _).
  simpl in Hreg, Hmono. split; [exact Hreg |].
  unfold new_contract_impl. unfold mbind at 1, M_bind at 1.
  rewrite check_not_known_spec, Hold.
  unfold mbind at 1, M_bind at 1. rewrite (check_identifier_accepts _ _ _ Hid).
  unfold mbind at 1, M_bind at 1. rewrite Hcond.
  unfold mbind at 1, M_bind at 1. unfold define_or_compare. rewrite Hreg, Hold.
  case_bool_decide as Heq; [| done].
  unfold mbind at 1, M_bind at 1. unfold check_parse_now, try_except.
  unfold mbind at 1, M_bind at 1.
  rewrite (parse_contract_string_hit identifier st3 (Extension identifier))
    by (apply Hmono; exact Hext).
  by rewrite bool_decide_eq_true_2.
Qed.

(** C2. For an identifier that is registered, a new call whose definition
    gives a bare node [b] returns [b] and leaves the registry as it is when
    the isolation wrapper of [b] equals the stored node; when it differs,
    the call raises a [ValueError] whose message shows the stored and the
    new definition, and the registry is again as it was. *)
Theorem register_redefinition (identifier : string) (old : Contract) (condition : PyObj)
    (st st3 : State) (b : Contract) :
  registered st identifier old ->
  check_condition condition (log (CallIdentifier identifier) st) = (inr b, st3) ->
  (SeparateContext b = old ->
   new_contract_impl (PyStr identifier) condition st = (inr b, st3) /\
   registrar st3 = registrar st) /\
  (SeparateContext b <> old ->
   exists msg,
     new_contract_impl (PyStr identifier) condition st = (inl (ValueError msg), st3) /\
     mentions msg (repr_Contract old) /\
     mentions msg (repr_Contract (SeparateContext b)) /\
     registrar st3 = registrar st).
Proof.
  intros Hreg Hcond.
  destruct (redefinition_steps _ _ _ _ _ _ Hreg Hcond) as [Hr Hnew].
  split; intros Heq.
  - rewrite bool_decide_eq_true_2 in Hnew by done. by split.
  - rewrite bool_decide_eq_false_2 in Hnew by done.
    eexists. split; [exact Hnew |]. split; [mentions | split; [mentions | exact Hr]].
Qed.

(** Registering the same identifier with the same definition a second time
    returns the same node and leaves the registry as the first call left
    it. *)
Lemma new_contract_impl_twice (identifier : string) (condition : PyObj)
    (st st' : State) (b : Contract) :
  new_contract_impl (PyStr identifier) condition st = (inr b, st') ->
  exists st'', new_contract_impl (PyStr identifier) condition st' = (inr b, st'') /\
    registrar st'' = registrar st'.
Proof.
  intros H. destruct (new_contract_impl_registers _ _ _ _ _ H) as (Hreg & Hdef & Hcall).
  set (st2 := log (CallIdentifier identifier) st').
  assert (Hcond : exists st3, check_condition condition st2 = (inr b, st3)).
  { destruct (new_contract_impl_inr _ _ _ _ _ H)
      as (s1 & s2 & s3 & s4 & _ & _ & H3 & _).
    destruct condition as [ | | | definition | | | f | self f | cls call ];
      try (specialize (Hcall ltac:(discriminate)); subst b;
           revert H3; unfold check_condition; unfold_M;
           destruct (hasattr_call _); [| discriminate];
           match goal with
           | |- context [can_accept_exactly_one_argument ?c s2] =>
               destruct (can_accept_exactly_one_argument_frame c s2 st2) as (Hsame & _);
               destruct (can_accept_exactly_one_argument c s2) as [[e | [[] err]] t];
               destruct (can_accept_exactly_one_argument c st2) as [[e' | [[] err']] t'];
               simpl in Hsame; try discriminate; eauto
           end).
    exists st2. unfold check_condition, try_except.
    by rewrite (parse_contract_string_hit definition st2 b) by (by apply Hdef). }
  destruct Hcond as [st3 Hcond]. exists st3.
  destruct (redefinition_steps _ _ _ _ _ _ Hreg Hcond) as [Hr Hnew].
  by rewrite bool_decide_eq_true_2 in Hnew.
Qed.

End Extensions.

(** ** Rejected registrations *)

Section Rejections.
Context `{L : Library}.

Lemma check_identifier_frame (identifier : string) (st : State) r st2 :
  check_identifier identifier st = (r, st2) -> st2 = log (CallIdentifier identifier) st.
Proof.
  unfold check_identifier. destruct (parseString _ _ _); by intros [= <- <-].
Qed.

Lemma check_parse_now_registrar (identifier : string) (st : State) r st' :
  check_parse_now identifier st = (r, st') -> registrar st' = registrar st.
Proof.
  unfold check_parse_now. unfold_M.
  destruct (parse_contract_string identifier st) as [[e | c] st1] eqn:Hp;
    apply parse_contract_string_registrar in Hp.
  - destruct e; intros [= <- <-]; done.
  - case_bool_decide; intros [= <- <-]; done.
Qed.

(** For a registered identifier the registry is never written, whatever the
    outcome, and the call returns only for the stored definition. *)
Lemma new_contract_impl_registered_frame (identifier : string) (old : Contract)
    (condition : PyObj) (st : State) r st' :
  registrar st !! identifier = Some old ->
  new_contract_impl (PyStr identifier) condition st = (r, st') ->
  registrar st' = registrar st /\ forall b, r = inr b -> old = SeparateContext b.
Proof.
  intros Hold. unfold new_contract_impl. unfold mbind at 1, M_bind at 1.
  rewrite check_not_known_spec, Hold. unfold mbind at 1, M_bind at 1.
  destruct (check_identifier identifier st) as [[e | []] st2] eqn:H2;
    apply check_identifier_frame in H2; subst st2.
  { intros [= <- <-]. split; [done | discriminate]. }
  unfold mbind at 1, M_bind at 1.
  destruct (check_condition condition _) as [[e | b] st3] eqn:H3;
    destruct (check_condition_frame _ _ _ _ H3) as (Hreg3 & _); simpl in Hreg3.
  { intros [= <- <-]. split; [done | discriminate]. }
  unfold mbind at 1, M_bind at 1. unfold define_or_compare. rewrite Hreg3, Hold.
  case_bool_decide as Heq.
  2:{ intros [= <- <-]. split; [done | discriminate]. }
  unfold mbind at 1, M_bind at 1.
  destruct (check_parse_now identifier st3) as [[e | []] st5] eqn:H5;
    apply check_parse_now_registrar in H5.
  - intros [= <- <-]. split; [congruence | discriminate].
  - unfold_M. intros [= <- <-]. split; [congruence |]. by intros b' [= <-].
Qed.

(** A parse adds to the log and removes nothing from it. *)
Lemma parse_contract_string_calls s st r st' :
  parse_contract_string s st = (r, st') -> exists made, calls st' = (calls st ++ made)%list.
Proof.
  unfold parse_contract_string. destruct (string2contract st !! s).
  - intros [= <- <-]. exists []. by rewrite app_nil_r.
  - destruct (parseString _ _ s); intros [= <- <-]; by exists [CallParseString s].
Qed.

(** The introspection lets no [ValueError] through. *)
Lemma can_accept_exactly_one_argument_raises (callable_thing : PyObj) (st : State) e st' :
  can_accept_exactly_one_argument callable_thing st = (inl e, st') ->
  forall msg, e <> ValueError msg.
Proof.
  unfold can_accept_exactly_one_argument, introspected, getattr_call, try_getcallargs.
  unfold_M.
  destruct callable_thing as [ | | | | | | f | self f | cls [f |] ]; simpl;
    try (intros [= <- <-]; discriminate);
    match goal with
    | |- context [getcallargs ?f ?a] => destruct (getcallargs f a) as [[] |]
    end; intros [= <- <-]; discriminate.
Qed.

(** The test of the definition adds to the log, and none of its errors is
    the error of the test of the identifier. *)
Lemma check_condition_after (condition : PyObj) (st : State) r st3 :
  check_condition condition st = (r, st3) ->
  (exists made, calls st3 = (calls st ++ made)%list) /\
  forall id c, r <> inl (ValueError (overwrites id c)).
Proof.
  assert (Hcall : forall definition, condition <> PyStr definition ->
    (if hasattr_call condition then
       r ← can_accept_exactly_one_argument condition;
       (let '(can, error) := r in
        if (can : bool) then mret (CheckCallable condition)
        else raise (ValueError ("The given callable " ++ repr condition
                      ++ " should be able to accept "
                      ++ "exactly one argument. Error: " ++ default "None" error ++ " ")))
     else
       raise (ValueError ("I need either a string or a callable for the "
                ++ "condition; found " ++ describe_value condition ++ "."))) st = (r, st3) ->
    (exists made, calls st3 = (calls st ++ made)%list) /\
    forall id c, r <> inl (ValueError (overwrites id c))).
  { intros _ _. destruct (hasattr_call condition).
    2:{ intros [= <- <-]. split; [exists []; by rewrite app_nil_r |].
        intros id c. unfold overwrites. intros [= H]. }
    unfold_M.
    destruct (can_accept_exactly_one_argument_frame condition st st)
      as (_ & _ & _ & made & Hmade & _).
    destruct (can_accept_exactly_one_argument condition st) as [[e | [can err]] st'] eqn:Hcan;
      simpl in Hmade.
    - intros [= <- <-]. split; [by exists made |].
      intros id c [= ->]. by eapply can_accept_exactly_one_argument_raises.
    - destruct can; intros [= <- <-]; (split; [by exists made |]); intros id c; [done |].
      unfold overwrites. intros [= H]. }
  destruct condition as [ | | | definition | | | | | ];
    try (apply (Hcall ""); discriminate).
  unfold check_condition, try_except.
  destruct (parse_contract_string definition st) as [[e | b] st1] eqn:Hp;
    destruct (parse_contract_string_calls _ _ _ _ Hp) as [made Hmade].
  - destruct (parse_contract_string_inl _ _ _ _ Hp) as (_ & msg & w & -> & _).
    intros [= <- <-]. split; [by exists made |].
    intros id c. unfold overwrites. intros [= H].
  - intros [= <- <-]. split; [by exists made | done].
Qed.

(** Once the test of the identifier against the known expressions is
    passed or skipped, the next call is the one of the identifier grammar,
    and the error of that test is not raised any more. *)
Lemma new_contract_impl_after_test (identifier : string) (condition : PyObj)
    (st st1 : State) r st' :
  check_not_known identifier st = (inr tt, st1) ->
  new_contract_impl (PyStr identifier) condition st = (r, st') ->
  (exists made, calls st' = (calls st1 ++ CallIdentifier identifier :: made)%list) /\
  forall c, r <> inl (ValueError (overwrites identifier c)).
Proof.
  intros H1. unfold new_contract_impl. unfold mbind at 1, M_bind at 1. rewrite H1.
  unfold mbind at 1, M_bind at 1.
  destruct (check_identifier identifier st1) as [[e | []] st2] eqn:H2;
    pose proof (check_identifier_frame _ _ _ _ H2) as ->.
  { intros [= <- <-]. split; [by exists [] |]. intros c. revert H2.
    unfold check_identifier, overwrites.
    destruct (parseString _ _ _); intros [= <-]; intros [= H]. }
  unfold mbind at 1, M_bind at 1.
  destruct (check_condition condition _) as [[e | b] st3] eqn:H3;
    destruct (check_condition_after _ _ _ _ H3) as [[made3 Hmade3] Herr3];
    simpl in Hmade3.
  { intros [= <- <-]. split; [| intros c; apply Herr3].
    exists made3. by rewrite Hmade3, <- app_assoc. }
  unfold mbind at 1, M_bind at 1. unfold define_or_compare.
  destruct (registrar st3 !! identifier) as [old |].
  - case_bool_decide as Heq.
    2:{ intros [= <- <-]. split; [exists made3; by rewrite Hmade3, <- app_assoc |].
        intros c. unfold overwrites. intros [= H]. }
    unfold mbind at 1, M_bind at 1. unfold check_parse_now, try_except. unfold_M.
    destruct (parse_contract_string identifier st3) as [[e | c'] st5] eqn:H5;
      destruct (parse_contract_string_calls _ _ _ _ H5) as [made5 Hmade5].
    + destruct (parse_contract_string_inl _ _ _ _ H5) as (_ & msg & w & -> & _).
      intros [= <- <-]. split; [| done]. exists (made3 ++ made5)%list.
      by rewrite Hmade5, Hmade3, <- !app_assoc.
    + case_bool_decide; intros [= <- <-]; (split; [| done]);
        exists (made3 ++ made5)%list; by rewrite Hmade5, Hmade3, <- !app_assoc.
  - unfold mbind at 1, M_bind at 1. unfold check_parse_now, try_except. unfold_M.
    match goal with
    | |- context [parse_contract_string identifier ?s] =>
        destruct (parse_contract_string identifier s) as [[e | c'] st5] eqn:H5;
        destruct (parse_contract_string_calls _ _ _ _ H5) as [made5 Hmade5];
        simpl in Hmade5
    end.
    + destruct (parse_contract_string_inl _ _ _ _ H5) as (_ & msg & w & -> & _).
      intros [= <- <-]. split; [| done]. exists (made3 ++ made5)%list.
      by rewrite Hmade5, Hmade3, <- !app_assoc.
    + case_bool_decide; intros [= <- <-]; (split; [| done]);
        exists (made3 ++ made5)%list; by rewrite Hmade5, Hmade3, <- !app_assoc.
Qed.

(** C7. An identifier that is not in the registry and that
    [parse_contract_string] parses is refused: whatever the definition, the
    call raises the [ValueError] that names the identifier and the
    expression it parses as, and the registry is as before. The test is
    run whenever the identifier is not in the registry: when the identifier
    does not parse, the log shows the parse of the identifier, made first,
    and the call goes on to the identifier grammar. The test is skipped
    when the identifier is in the registry, although a registered
    identifier parses: the first call made is the one of the identifier
    grammar and the error of the test is never raised. The call is then a
    possible redefinition: it never writes the registry, it returns only
    when the stored node is the isolation wrapper of the new bare node, and
    for a registered identifier and such a definition it does return the
    bare node. *)
Theorem register_known_expression (identifier : string) (st : State) :
  (registrar st !! identifier = None ->
   forall c st1, parse_contract_string identifier st = (inr c, st1) ->
     forall condition,
       new_contract_impl (PyStr identifier) condition st
       = (inl (ValueError (overwrites identifier c)), st1) /\
       mentions (overwrites identifier c) (repr (PyStr identifier)) /\
       mentions (overwrites identifier c) (str_Contract c) /\
       registrar st1 = registrar st) /\
  (registrar st !! identifier = None ->
   forall e st1, parse_contract_string identifier st = (inl e, st1) ->
     forall condition,
       (exists made,
          calls (new_contract_impl (PyStr identifier) condition st).2
          = (calls st ++ CallParseString identifier :: CallIdentifier identifier :: made)%list) /\
       (forall c, (new_contract_impl (PyStr identifier) condition st).1
                  <> inl (ValueError (overwrites identifier c)))) /\
  (forall old, registrar st !! identifier = Some old ->
     forall condition,
       (exists made,
          calls (new_contract_impl (PyStr identifier) condition st).2
          = (calls st ++ CallIdentifier identifier :: made)%list) /\
       (forall c, (new_contract_impl (PyStr identifier) condition st).1
                  <> inl (ValueError (overwrites identifier c))) /\
       registrar (new_contract_impl (PyStr identifier) condition st).2 = registrar st /\
       (forall b, (new_contract_impl (PyStr identifier) condition st).1 = inr b ->
                  old = SeparateContext b) /\
       (registered st identifier old ->
        forall b st3,
          check_condition condition (log (CallIdentifier identifier) st) = (inr b, st3) ->
          SeparateContext b = old ->
          new_contract_impl (PyStr identifier) condition st = (inr b, st3))).
Proof.
  split; [| split].
  - intros Hnone c st1 Hp condition.
    split; [| split; [unfold overwrites; mentions | split; [unfold overwrites; mentions |]]].
    + unfold new_contract_impl. unfold mbind at 1, M_bind at 1.
      by rewrite check_not_known_spec, Hnone, Hp.
    + by eapply parse_contract_string_registrar.
  - intros Hnone e st1 Hp condition.
    assert (H1 : check_not_known identifier st = (inr tt, st1))
      by (by rewrite check_not_known_spec, Hnone, Hp).
    destruct (new_contract_impl (PyStr identifier) condition st) as [r st'] eqn:Hrun.
    destruct (new_contract_impl_after_test _ _ _ _ _ _ H1 Hrun) as [[made Hmade] Herr].
    simpl. split; [| exact Herr]. exists made. rewrite Hmade.
    destruct (parse_contract_string_inl _ _ _ _ Hp) as (-> & _). simpl.
    by rewrite <- app_assoc.
  - intros old Hold condition.
    assert (H1 : check_not_known identifier st = (inr tt, st))
      by (by rewrite check_not_known_spec, Hold).
    destruct (new_contract_impl (PyStr identifier) condition st) as [r st'] eqn:Hrun.
    destruct (new_contract_impl_after_test _ _ _ _ _ _ H1 Hrun) as [Hmade Herr].
    destruct (new_contract_impl_registered_frame _ _ _ _ _ _ Hold Hrun) as [Hreg Hret].
    cbn [fst snd]. split; [exact Hmade |]. split; [exact Herr |].
    split; [exact Hreg |]. split; [exact Hret |].
    intros Hregd b st3 Hcond Heq.
    destruct (redefinition_steps _ _ _ _ _ _ Hregd Hcond) as [_ Hnew].
    rewrite bool_decide_eq_true_2 in Hnew by done. congruence.
Qed.

(** C8. When the identifier grammar does not match the identifier, the call
    raises a [ValueError] and the registry is as before. The error and the
    final state are the same for every definition, and the only calls made
    are to the two grammars, on the identifier: the definition is never
    parsed, introspected or checked. *)
Theorem register_bad_identifier (identifier : string) (e : ParseError) (st : State) :
  parseString string_end identifier_expression identifier = ParseException e ->
  exists msg st',
    (forall condition,
        new_contract_impl (PyStr identifier) condition st = (inl (ValueError msg), st')) /\
    registrar st' = registrar st /\
    exists made, calls st' = (calls st ++ made)%list /\
      Forall (fun c => c = CallParseString identifier \/ c = CallIdentifier identifier) made.
Proof.
  intros Hid.
  destruct (check_not_known identifier st) as [[e1 | []] st1] eqn:H1;
    destruct (check_not_known_frame _ _ _ _ H1) as (Hreg1 & _ & Hcalls1 & Herr).
  - destruct (Herr e1 eq_refl) as [msg ->]. exists msg, st1. split; [| split; [done |]].
    + intros condition. unfold new_contract_impl. unfold mbind at 1, M_bind at 1.
      by rewrite H1.
    + destruct Hcalls1 as [-> | ->].
      * exists []. split; [by rewrite app_nil_r | constructor].
      * eexists. split; [done |]. grammar_calls.
  - eexists _, (log (CallIdentifier identifier) st1). split; [| split; [done |]].
    + intros condition. unfold new_contract_impl. unfold mbind at 1, M_bind at 1.
      rewrite H1. unfold mbind at 1, M_bind at 1. unfold check_identifier.
      rewrite Hid. reflexivity.
    + simpl. destruct Hcalls1 as [-> | ->].
      * eexists. split; [done |]. grammar_calls.
      * rewrite <- app_assoc. eexists. split; [done |]. grammar_calls.
Qed.

Lemma check_condition_callable (condition : PyObj) (st : State) :
  (forall definition, condition <> PyStr definition) ->
  hasattr_call condition = true ->
  check_condition condition st
  = match can_accept_exactly_one_argument condition st with
    | (inl e, st') => (inl e, st')
    | (inr (true, _), st') => (inr (CheckCallable condition), st')
    | (inr (false, error), st') => (inl (ValueError (not_one_argument condition error)), st')
    end.
Proof.
  intros Hne Hcall.
  destruct condition as [ | | | definition | | | f | self f | cls call ];
    try discriminate; try (by destruct (Hne definition));
    unfold check_condition; rewrite ?Hcall; unfold_M;
    match goal with
    | |- context [can_accept_exactly_one_argument ?c st] =>
        by destruct (can_accept_exactly_one_argument c st) as [[e | [[] err]] t]
    end.
Qed.

(** C6. A callable on which the introspection of
    [can_accept_exactly_one_argument] fails with the error [err] cannot be
    registered: every call raises and leaves the registry as it was. When
    the identifier passes its two tests the exception is the [ValueError]
    that shows the callable and [err]; the cache is untouched and the only
    call made for the definition is the introspection, during the
    registration itself: no check is run. *)
Theorem register_wrong_arity (condition : PyObj) (err : string) :
  (forall definition, condition <> PyStr definition) ->
  hasattr_call condition = true ->
  (can_accept_exactly_one_argument condition initial).1 = inr (false, Some err) ->
  forall (identifier : PyObj) (st : State),
    (exists e st',
        new_contract_impl identifier condition st = (inl e, st') /\
        registrar st' = registrar st /\
        ((exists msg, e = ValueError msg) \/
         exists id p, identifier = PyStr id /\
           parseString string_end identifier_expression id = ParseFatalError p)) /\
    (forall id st1 st2,
        identifier = PyStr id ->
        check_not_known id st = (inr tt, st1) ->
        check_identifier id st1 = (inr tt, st2) ->
        exists msg st3,
          new_contract_impl identifier condition st = (inl (ValueError msg), st3) /\
          mentions msg err /\ mentions msg (repr condition) /\
          string2contract st3 = string2contract st2 /\
          exists made, calls st3 = (calls st2 ++ made)%list /\
            Forall (fun c => exists f args, c = CallGetcallargs f args) made).
Proof.
  intros Hne Hcall Herr identifier st.
  assert (Hcond : forall s, exists s',
             check_condition condition s
             = (inl (ValueError (not_one_argument condition (Some err))), s') /\
             string2contract s' = string2contract s /\ registrar s' = registrar s /\
             exists made, calls s' = (calls s ++ made)%list /\
               Forall (fun c => exists f args, c = CallGetcallargs f args) made).
  { intros s. rewrite (check_condition_callable _ _ Hne Hcall).
    destruct (can_accept_exactly_one_argument_frame condition s initial)
      as (Hsame & Hc & Hr & Hmade).
    rewrite Herr in Hsame.
    destruct (can_accept_exactly_one_argument condition s) as [r s'].
    simpl in Hsame, Hc, Hr, Hmade. subst r. eauto. }
  split.
  - destruct identifier as [ | | | id | | | | | ];
      try (eexists _, st; split; [reflexivity | split; [done | left; eauto]]).
    unfold new_contract_impl. unfold mbind at 1, M_bind at 1.
    destruct (check_not_known id st) as [[e1 | []] st1] eqn:H1;
      destruct (check_not_known_frame _ _ _ _ H1) as (Hreg1 & _ & _ & Herr1).
    { destruct (Herr1 e1 eq_refl) as [msg ->]. eexists _, st1.
      split; [reflexivity | split; [done | left; eauto]]. }
    unfold mbind at 1, M_bind at 1.
    destruct (check_identifier id st1) as [[e2 | []] st2] eqn:H2.
    { pose proof (check_identifier_frame _ _ _ _ H2) as ->.
      eexists _, _. split; [reflexivity | split; [done |]].
      revert H2. unfold check_identifier.
      destruct (parseString string_end identifier_expression id) as [t | p | p] eqn:Hid;
        intros [= <-]; [left | right]; eauto. }
    apply check_identifier_frame in H2; subst st2.
    unfold mbind at 1, M_bind at 1.
    destruct (Hcond (log (CallIdentifier id) st1)) as (s' & -> & _ & Hr & _).
    simpl in Hr. eexists _, s'. split; [reflexivity | split; [congruence | left; eauto]].
  - intros id st1 st2 -> H1 H2.
    destruct (Hcond st2) as (s' & Hc & Hcache & _ & Hmade).
    exists (not_one_argument condition (Some err)), s'.
    split; [| split; [unfold not_one_argument; simpl; mentions
                     | split; [unfold not_one_argument; mentions | by split]]].
    unfold new_contract_impl. unfold mbind at 1, M_bind at 1. rewrite H1.
    unfold mbind at 1, M_bind at 1. rewrite H2.
    unfold mbind at 1, M_bind at 1. by rewrite Hc.
Qed.

End Rejections.

(** ** The [fail] utility *)

Section Fail.
Context `{L : Library}.

(** C9. For a contract string that parses to a node [c]: when the check of
    the value against [c], in a fresh context, raises a violation, [fail]
    absorbs it and returns; when the check succeeds and leaves [context],
    [fail] raises a [ValueError], which is no [ContractNotRespected], whose
    message shows the value, the contract and the context. *)
Theorem fail_inverts_check (contract : string) (value : PyObj) (st st1 : State)
    (c : Contract) :
  parse_contract_string contract st = (inr c, st1) ->
  (forall v,
      _check_contract (registrar st1) c Context_new value = inl (ContractNotRespected v) ->
      fail contract value st = (inr tt, log (CallCheck c value) st1)) /\
  (forall context,
      _check_contract (registrar st1) c Context_new value = inr context ->
      exists msg,
        fail contract value st = (inl (ValueError msg), log (CallCheck c value) st1) /\
        (forall v, ValueError msg <> ContractNotRespected v) /\
        mentions msg (describe_value value) /\
        mentions msg (str_Contract c) /\
        mentions msg (repr_Context context)).
Proof.
  intros Hp. split.
  - intros v Hv. unfold fail, try_except_else. unfold_M. rewrite Hp.
    unfold Contract_check, call_check. by rewrite Hv.
  - intros context Hc. eexists. split; [| split; [discriminate |]].
    + unfold fail, try_except_else. unfold_M. rewrite Hp.
      unfold Contract_check, call_check. rewrite Hc. simpl. reflexivity.
    + split; [mentions | split; mentions].
Qed.

End Fail.


(** * Further properties of the engine *)

(** ** Checks never write the tables *)

Section Keeping.
Context `{L : Library}.

Lemma keeps_ret {A} (a : A) : keeps_tables (mret a).
Proof. intros st r st' [= <- <-]. auto. Qed.

Lemma keeps_raise {A} (e : Exn) : keeps_tables (raise e : M A).
Proof. intros st r st' [= <- <-]. auto. Qed.

Lemma keeps_bind {A B} (m : M A) (f : A -> M B) :
  keeps_tables m -> (forall a, keeps_tables (f a)) -> keeps_tables (m ≫= f).
Proof.
  intros Hm Hf st r st'. unfold_M.
  destruct (m st) as [[e | a] st1] eqn:H1; destruct (Hm _ _ _ H1) as (Hr1 & Hs1 & Hc1).
  - by intros [= <- <-].
  - intros H2. destruct (Hf a _ _ _ H2) as (Hr2 & Hs2 & Hc2).
    split; [congruence | split; auto].
Qed.

Lemma keeps_try_except {A} (body : M A) (handler : Exn -> option (M A)) :
  keeps_tables body -> (forall e h, handler e = Some h -> keeps_tables h) ->
  keeps_tables (try_except body handler).
Proof.
  intros Hm Hh st r st'. unfold try_except.
  destruct (body st) as [[e | a] st1] eqn:H1; destruct (Hm _ _ _ H1) as (Hr1 & Hs1 & Hc1).
  - destruct (handler e) as [h |] eqn:He; [| by intros [= <- <-]].
    intros H2. destruct (Hh e h He _ _ _ H2) as (Hr2 & Hs2 & Hc2).
    split; [congruence | split; auto].
  - by intros [= <- <-].
Qed.

Lemma keeps_try_except_else {A B} (body : M A) (handler : Exn -> option (M B))
    (orelse : A -> M B) :
  keeps_tables body -> (forall e h, handler e = Some h -> keeps_tables h) ->
  (forall a, keeps_tables (orelse a)) ->
  keeps_tables (try_except_else body handler orelse).
Proof.
  intros Hm Hh Ho st r st'. unfold try_except_else.
  destruct (body st) as [[e | a] st1] eqn:H1; destruct (Hm _ _ _ H1) as (Hr1 & Hs1 & Hc1).
  - destruct (handler e) as [h |] eqn:He; [| by intros [= <- <-]].
    intros H2. destruct (Hh e h He _ _ _ H2) as (Hr2 & Hs2 & Hc2).
    split; [congruence | split; auto].
  - intros H2. destruct (Ho a _ _ _ H2) as (Hr2 & Hs2 & Hc2).
    split; [congruence | split; auto].
Qed.

Lemma keeps_parse_contract_string (s : string) : keeps_tables (parse_contract_string s).
Proof.
  intros st r st' H. split; [by eapply parse_contract_string_registrar |].
  split; [intros Hs; by eapply parse_contract_string_sound |].
  intros s' c'. by eapply parse_contract_string_mono.
Qed.

Lemma keeps_call_check (c : Contract) (context : Context) (v : PyObj) :
  keeps_tables (call_check c context v).
Proof. intros st r st'. unfold call_check. intros [= <- <-]. auto. Qed.

Lemma keeps_parse_loop (contracts : list string) (C : list Contract) :
  keeps_tables (parse_loop contracts C).
Proof.
  revert C. induction contracts as [| x contracts IH]; intros C; simpl.
  - apply keeps_ret.
  - apply keeps_bind; [apply keeps_parse_contract_string | intros c; apply IH].
Qed.

Lemma keeps_check_loop (C : list Contract) (values : list PyObj) (range : list nat)
    (context : Context) :
  keeps_tables (check_loop C values range context).
Proof.
  revert context. induction range as [| i range IH]; intros context; simpl.
  - apply keeps_ret.
  - destruct (C !! i); [destruct (values !! i) |]; try apply keeps_raise.
    apply keeps_bind; [apply keeps_call_check | intros c'; apply IH].
Qed.

Lemma keeps_check_contracts (contracts : list string) (values : list PyObj) :
  keeps_tables (check_contracts contracts values).
Proof.
  unfold check_contracts. case_bool_decide; [| apply keeps_raise].
  apply keeps_bind; [apply keeps_parse_loop | intros C; apply keeps_check_loop].
Qed.

Lemma keeps_reraise_described {A} sep desc e (h : M A) :
  reraise_described sep desc e = Some h -> keeps_tables h.
Proof. destruct e; intros [= <-]. apply keeps_raise. Qed.

Lemma keeps_check (contract object : PyObj) (desc : option string) :
  keeps_tables (check contract object desc).
Proof.
  unfold check. destruct contract; try apply keeps_raise.
  apply keeps_try_except; [apply keeps_check_contracts |].
  intros e h. apply keeps_reraise_described.
Qed.

(** X1. None of [parse_contract_string], [check_contracts], [check],
    [check_multiple] and [fail] ever writes the extension registry or
    removes or replaces a cached node, whatever they return or raise, and
    each leaves a sound cache sound. *)
Theorem checking_keeps_tables :
  (forall s, keeps_tables (parse_contract_string s)) /\
  (forall contracts values, keeps_tables (check_contracts contracts values)) /\
  (forall contract object desc, keeps_tables (check contract object desc)) /\
  (forall couples desc, keeps_tables (check_multiple couples desc)) /\
  (forall contract value, keeps_tables (fail contract value)).
Proof.
  split; [exact keeps_parse_contract_string |].
  split; [exact keeps_check_contracts |].
  split; [exact keeps_check |]. split.
  - intros couples desc. unfold check_multiple.
    apply keeps_bind; [apply keeps_check | intros _].
    apply keeps_try_except; [apply keeps_check_contracts |].
    intros e h. apply keeps_reraise_described.
  - intros contract value. unfold fail. apply keeps_try_except_else.
    + apply keeps_bind; [apply keeps_parse_contract_string | intros c].
      apply keeps_bind; [apply keeps_call_check | intros context; apply keeps_ret].
    + intros e h. destruct e; intros [= <-]. apply keeps_ret.
    + intros a. apply keeps_raise.
Qed.

End Keeping.

(** ** Parsing comes before checking *)

Section ParseFirst.
Context `{L : Library}.

Lemma parse_loop_app (xs ys : list string) :
  forall C st,
    parse_loop (xs ++ ys) C st
    = match parse_loop xs C st with
      | (inr C', st1) => parse_loop ys C' st1
      | (inl e, st1) => (inl e, st1)
      end.
Proof.
  induction xs as [| x xs IH]; intros C st; [done |].
  simpl. unfold_M. destruct (parse_contract_string x st) as [[e | c] st1]; [done |].
  apply IH.
Qed.

(** The calls a run of [parse_loop] makes are calls of the grammar, on
    strings of its list. *)
Lemma parse_loop_calls (contracts : list string) :
  forall C st r st', parse_loop contracts C st = (r, st') ->
    exists made, calls_since st st' made /\
      Forall (fun c => exists s, s ∈ contracts /\ c = CallParseString s) made.
Proof.
  induction contracts as [| x contracts IH]; intros C st r st'.
  - intros [= <- <-]. exists []. split; [unfold calls_since; by rewrite app_nil_r | done].
  - simpl. unfold_M. destruct (parse_contract_string x st) as [[e | c] st1] eqn:Hp.
    + intros [= <- <-]. destruct (parse_contract_string_inl _ _ _ _ Hp) as (-> & _).
      exists [CallParseString x]. split; [done |].
      constructor; [| done]. exists x. split; [apply elem_of_cons; by left | done].
    + intros Hrest. destruct (IH _ _ _ _ Hrest) as (made & Hmade & Hall).
      assert (Hx : calls st1 = calls st \/ calls st1 = (calls st ++ [CallParseString x])%list).
      { destruct (parse_contract_string_inr _ _ _ _ Hp) as (_ & _ & _ & [-> | Hnone]);
          [by left |].
        right. revert Hp. unfold parse_contract_string. rewrite Hnone.
        destruct (parseString _ _ _); intros [= <- <-]; done. }
      assert (Hall' : Forall (fun c => exists s, s ∈ x :: contracts /\ c = CallParseString s)
                        made).
      { eapply Forall_impl; [exact Hall |]. intros c' (s & Hs & ->). exists s.
        split; [apply elem_of_cons; by right | done]. }
      unfold calls_since in *. destruct Hx as [Hx | Hx]; rewrite Hx in Hmade.
      * exists made. by split.
      * exists (CallParseString x :: made). split; [by rewrite Hmade, <- app_assoc |].
        constructor; [| done]. exists x. split; [apply elem_of_cons; by left | done].
Qed.

Lemma parse_loop_accepts (contracts : list string) :
  forall C st,
    cache_sound st ->
    Forall (fun s => exists c,
              parseString string_end (syntax_contract (registrar st)) s = ParseOk c)
      contracts ->
    exists C' st1, parse_loop contracts C st = (inr C', st1) /\
      cache_sound st1 /\ registrar st1 = registrar st.
Proof.
  induction contracts as [| x contracts IH]; intros C st Hsound Hall.
  - exists C, st. by split.
  - inversion Hall as [| ? ? [c Hc] Hrest]; subst.
    destruct (parse_contract_string_accepts _ _ _ Hsound Hc) as (st1 & Hp & Hreg & Hs1).
    rewrite <- Hreg in Hrest.
    destruct (IH (C ++ [c])%list st1 Hs1 Hrest) as (C' & st2 & Hl & Hs2 & Hreg2).
    exists C', st2. simpl. unfold_M. rewrite Hp. split; [done | split; [done | congruence]].
Qed.

(** X2. [check_contracts] parses every string before it checks any value.
    When the strings before [bad] parse and [bad] does not, the call raises
    the [ContractSyntaxError] for [bad], carrying [bad] and the place of the
    failure; the only calls made are calls of the grammar on [bad] and on
    strings before it, so no value has been checked and no string after
    [bad] has been parsed; the registry is as before and [bad] is not in the
    cache. *)
Theorem check_contracts_parses_before_checking (before : list string) (bad : string)
    (after : list string) (values : list PyObj) (e : ParseError) (st : State) :
  cache_sound st ->
  length (before ++ bad :: after)%list = length values ->
  Forall (fun s => exists c,
            parseString string_end (syntax_contract (registrar st)) s = ParseOk c) before ->
  (parseString string_end (syntax_contract (registrar st)) bad = ParseException e \/
   parseString string_end (syntax_contract (registrar st)) bad = ParseFatalError e) ->
  exists st1,
    check_contracts (before ++ bad :: after)%list values st
    = (inl (ContractSyntaxError (pe_str e) (mkWhere bad (lineno e) (col e))), st1) /\
    registrar st1 = registrar st /\
    string2contract st1 !! bad = None /\
    exists made, calls_since st st1 made /\
      Forall (fun c => exists s, s ∈ (before ++ [bad])%list /\ c = CallParseString s) made.
Proof.
  intros Hsound Hlen Hbefore Hbad.
  destruct (parse_loop_accepts before [] st Hsound Hbefore) as (C' & st0 & Hl & Hs0 & Hreg0).
  assert (Hnone : string2contract st0 !! bad = None).
  { destruct (string2contract st0 !! bad) as [c |] eqn:Hc; [| done].
    apply Hs0 in Hc. rewrite Hreg0 in Hc. destruct Hbad as [Hb | Hb]; congruence. }
  assert (Hp : parse_contract_string bad st0
               = (inl (ContractSyntaxError (pe_str e) (mkWhere bad (lineno e) (col e))),
                  log (CallParseString bad) st0)).
  { unfold parse_contract_string. rewrite Hnone, Hreg0.
    by destruct Hbad as [Hb | Hb]; rewrite Hb. }
  exists (log (CallParseString bad) st0).
  split; [| split; [done | split; [done |]]].
  - unfold check_contracts. rewrite bool_decide_eq_true_2 by done.
    unfold mbind at 1, M_bind at 1. rewrite parse_loop_app, Hl. simpl. unfold_M.
    by rewrite Hp.
  - destruct (parse_loop_calls _ _ _ _ _ Hl) as (made & Hmade & Hall).
    exists (made ++ [CallParseString bad])%list. unfold calls_since in *. simpl.
    split; [by rewrite Hmade, <- app_assoc |].
    apply Forall_app. split.
    + eapply Forall_impl; [exact Hall |]. intros c (s & Hs & ->). exists s.
      split; [apply elem_of_app; by left | done].
    + constructor; [| done]. exists bad.
      split; [apply elem_of_app; right; by apply list_elem_of_singleton | done].
Qed.

End ParseFirst.

(** ** [fail] against [check], and what a description changes *)

Section FailCheck.
Context `{L : Library}.

(** X3. [fail] is [check] with the outcome turned round, on the same final
    state: where [check] returns a context, [fail] raises a [ValueError];
    where [check] raises a violation, [fail] returns; any other exception
    of [check], such as the syntax error of a malformed contract string, is
    raised by [fail] as it is. *)
Theorem fail_mirrors_check (contract : string) (value : PyObj) (st : State) :
  match check (PyStr contract) value None st with
  | (inr context, st') => exists msg, fail contract value st = (inl (ValueError msg), st')
  | (inl (ContractNotRespected _), st') => fail contract value st = (inr tt, st')
  | (inl e, st') => fail contract value st = (inl e, st')
  end.
Proof.
  unfold check. rewrite try_except_described.
  unfold check_contracts, fail, try_except_else, Contract_check. simpl. unfold_M.
  destruct (parse_contract_string contract st) as [[e | c] st1] eqn:Hp.
  - destruct (parse_contract_string_inl _ _ _ _ Hp) as (_ & msg & w & -> & _). done.
  - simpl. unfold call_check.
    destruct (_check_contract (registrar st1) c Context_new value) as [e | context].
    + by destruct e.
    + eauto.
Qed.

Lemma same_but_text_refl {A} (a : (Exn + A) * State) : same_but_text a a.
Proof.
  split; [done |]. destruct a as [[e | x] st]; simpl; [| done].
  destruct e; try done. split; [done | apply mentions_refl].
Qed.

Lemma described_same_but_text {A} sep desc (e : Exn) (st : State) :
  same_but_text (inl (described sep desc e) : Exn + A, st) (inl e, st).
Proof.
  split; [done |]. destruct e; simpl; try done.
  destruct desc as [d |]; simpl; (split; [done |]); [mentions | apply mentions_refl].
Qed.

(** X4. The description given to [check] or [check_multiple] changes the
    text of a violation and nothing else: with or without it the call ends
    in the same state and returns the same context or raises the same
    exception, up to the [error] text of a violation, which with a
    description still shows the text it has without. *)
Theorem description_changes_text_only (desc : option string) (st : State) :
  (forall contract object,
      same_but_text (check contract object desc st) (check contract object None st)) /\
  (forall couples,
      same_but_text (check_multiple couples desc st) (check_multiple couples None st)).
Proof.
  assert (Hnone : forall sep e, described sep None e = e) by (by intros sep []).
  split.
  - intros contract object. unfold check.
    destruct contract; try apply same_but_text_refl.
    rewrite !try_except_described.
    destruct (check_contracts [s] [object] st) as [[e | context] st'];
      [| apply same_but_text_refl].
    rewrite Hnone. apply described_same_but_text.
  - intros couples. unfold check_multiple. unfold mbind, M_bind.
    destruct (check (PyStr couples_contract) (couples_value couples)
                (Some couples_expected) st) as [[e | context0] st0];
      [apply same_but_text_refl |].
    rewrite !try_except_described.
    destruct (check_contracts _ _ st0) as [[e | context] st'];
      [| apply same_but_text_refl].
    rewrite Hnone. apply described_same_but_text.
Qed.

End FailCheck.

(** ** What a registration can change *)

Section RegistrationFrame.
Context `{L : Library}.

Lemma check_parse_now_frame (identifier : string) (st : State) r st' :
  check_parse_now identifier st = (r, st') ->
  registrar st' = registrar st /\
  (forall s c, string2contract st !! s = Some c -> string2contract st' !! s = Some c) /\
  (forall e, r = inl e -> exists msg, e = AssertionError msg).
Proof.
  intros H. split; [by eapply check_parse_now_registrar |].
  revert H. unfold check_parse_now. unfold_M.
  destruct (parse_contract_string identifier st) as [[e | c] st1] eqn:Hp.
  - destruct (parse_contract_string_inl _ _ _ _ Hp) as (-> & msg & w & -> & _).
    intros [= <- <-]. split; [done |]. intros e [= <-]. eauto.
  - assert (Hmono := fun s c => parse_contract_string_mono _ _ _ _ s c Hp).
    case_bool_decide; intros [= <- <-]; (split; [done |]); intros e [= <-]. eauto.
Qed.

Lemma new_contract_impl_frame (identifier condition : PyObj) (st : State) r st' :
  new_contract_impl identifier condition st = (r, st') ->
  (forall s c, string2contract st !! s = Some c -> string2contract st' !! s = Some c) /\
  (registrar st' = registrar st \/
   exists id b,
     identifier = PyStr id /\ registrar st !! id = None /\
     registrar st' = <[id := SeparateContext b]> (registrar st) /\
     (r = inr b \/ exists msg, r = inl (AssertionError msg))).
Proof.
  destruct identifier as [ | | | id | | | | | ];
    try (intros [= <- <-]; split; [auto | by left]).
  unfold new_contract_impl. unfold mbind at 1, M_bind at 1.
  destruct (check_not_known id st) as [[e1 | []] st1] eqn:H1;
    destruct (check_not_known_frame _ _ _ _ H1) as (Hr1 & Hc1 & _);
    [intros [= <- <-]; split; [auto | by left] |].
  unfold mbind at 1, M_bind at 1.
  destruct (check_identifier id st1) as [[e2 | []] st2] eqn:H2;
    apply check_identifier_frame in H2; subst st2;
    [intros [= <- <-]; split; [auto | by left] |].
  unfold mbind at 1, M_bind at 1.
  destruct (check_condition condition _) as [[e3 | b] st3] eqn:H3;
    destruct (check_condition_frame _ _ _ _ H3) as (Hr3 & Hc3 & _); simpl in Hr3, Hc3.
  { intros [= <- <-]. split; [auto | left; congruence]. }
  unfold mbind at 1, M_bind at 1. unfold define_or_compare.
  destruct (registrar st3 !! id) as [old |] eqn:Hold.
  - case_bool_decide as Heq.
    2:{ intros [= <- <-]. split; [auto | left; congruence]. }
    unfold mbind at 1, M_bind at 1.
    destruct (check_parse_now id st3) as [[e5 | []] st5] eqn:H5;
      destruct (check_parse_now_frame _ _ _ _ H5) as (Hr5 & Hc5 & _);
      unfold_M; intros [= <- <-]; (split; [auto | left; congruence]).
  - unfold mbind at 1, M_bind at 1.
    set (st4 := mkState (string2contract st3) (<[id := SeparateContext b]> (registrar st3))
                  (calls st3)).
    assert (Hnew : registrar st !! id = None) by congruence.
    destruct (check_parse_now id st4) as [[e5 | []] st5] eqn:H5;
      destruct (check_parse_now_frame _ _ _ _ H5) as (Hr5 & Hc5 & He5); simpl in Hr5, Hc5;
      unfold_M; intros [= <- <-].
    + split; [auto |]. right. exists id, b.
      split; [done | split; [done | split; [congruence |]]].
      right. destruct (He5 e5 eq_refl) as [msg ->]. eauto.
    + split; [auto |]. right. exists id, b.
      split; [done | split; [done | split; [congruence | by left]]].
Qed.

(** X5. Whatever a call of [new_contract_impl] returns or raises, no cached
    node is removed or replaced and the registry is either as before or has
    gained exactly one entry: the isolation wrapper of the bare node, under
    the identifier, which was not registered. Entries of the registry are
    thus never overwritten or removed. The entry is added only by a call
    that returns that bare node, or by one that then fails its closing
    self-check with an [AssertionError]. *)
Theorem registration_adds_at_most_one_entry (identifier condition : PyObj) (st : State) :
  let out := new_contract_impl identifier condition st in
  (forall s c, string2contract st !! s = Some c ->
               string2contract out.2 !! s = Some c) /\
  (registrar out.2 = registrar st \/
   exists id b,
     identifier = PyStr id /\ registrar st !! id = None /\
     registrar out.2 = <[id := SeparateContext b]> (registrar st) /\
     (out.1 = inr b \/ exists msg, out.1 = inl (AssertionError msg))).
Proof.
  intros out. subst out.
  destruct (new_contract_impl identifier condition st) as [r st'] eqn:H.
  exact (new_contract_impl_frame _ _ _ _ _ H).
Qed.

(** X6. A string definition that does not parse is refused: when the
    identifier passes its two tests and [parse_contract_string] raises a
    syntax error on the definition, the call raises a [ValueError] that
    shows the definition and the syntax error, and the registry is as
    before. *)
Theorem definition_must_parse (id definition : string) (st st1 st2 st3 : State)
    (msg : string) (w : Where) :
  check_not_known id st = (inr tt, st1) ->
  check_identifier id st1 = (inr tt, st2) ->
  parse_contract_string definition st2 = (inl (ContractSyntaxError msg w), st3) ->
  exists m,
    new_contract_impl (PyStr id) (PyStr definition) st = (inl (ValueError m), st3) /\
    mentions m (repr (PyStr definition)) /\
    mentions m (str_ContractSyntaxError msg w) /\
    registrar st3 = registrar st.
Proof.
  intros H1 H2 H3. eexists. split; [| split; [| split]].
  - unfold new_contract_impl. unfold mbind at 1, M_bind at 1. rewrite H1.
    unfold mbind at 1, M_bind at 1. rewrite H2.
    unfold mbind at 1, M_bind at 1. unfold check_condition, try_except. rewrite H3.
    reflexivity.
  - mentions.
  - mentions.
  - destruct (check_not_known_frame _ _ _ _ H1) as (Hr1 & _).
    apply check_identifier_frame in H2. subst st2.
    apply parse_contract_string_registrar in H3. simpl in H3. congruence.
Qed.

(** X7. Arguments of the wrong kind are refused with a [ValueError] that
    describes them. An identifier that is not a string is refused at once:
    the state is untouched, no grammar is run. A definition that is neither
    a string nor callable is refused once the identifier has passed its two
    tests, with nothing registered. *)
Theorem arguments_of_the_wrong_kind :
  (forall identifier condition st,
      (forall s, identifier <> PyStr s) ->
      exists m,
        new_contract_impl identifier condition st = (inl (ValueError m), st) /\
        mentions m (describe_value identifier)) /\
  (forall id condition st st1 st2,
      check_not_known id st = (inr tt, st1) ->
      check_identifier id st1 = (inr tt, st2) ->
      (forall s, condition <> PyStr s) ->
      hasattr_call condition = false ->
      exists m,
        new_contract_impl (PyStr id) condition st = (inl (ValueError m), st2) /\
        mentions m (describe_value condition) /\
        registrar st2 = registrar st).
Proof.
  split.
  - intros identifier condition st Hne.
    destruct identifier as [ | | | s | | | | | ]; try (by destruct (Hne s));
      (eexists; split; [reflexivity | mentions]).
  - intros id condition st st1 st2 H1 H2 Hne Hcall.
    assert (Hreg : registrar st2 = registrar st).
    { destruct (check_not_known_frame _ _ _ _ H1) as (Hr1 & _).
      apply check_identifier_frame in H2. subst st2. exact Hr1. }
    eexists. split; [| split; [| exact Hreg]].
    + unfold new_contract_impl. unfold mbind at 1, M_bind at 1. rewrite H1.
      unfold mbind at 1, M_bind at 1. rewrite H2.
      unfold mbind at 1, M_bind at 1. unfold check_condition.
      destruct condition as [ | | | s | | | | | ]; try (by destruct (Hne s));
        rewrite ?Hcall; try discriminate; reflexivity.
    + mentions.
Qed.

(** X8. Registration is idempotent: after a call has returned a node for an
    identifier and a definition, the same call made again returns the same
    node and leaves the registry as the first call left it. *)
Theorem registering_twice (identifier : string) (condition : PyObj)
    (st st' : State) (b : Contract) :
  new_contract_impl (PyStr identifier) condition st = (inr b, st') ->
  exists st'',
    new_contract_impl (PyStr identifier) condition st' = (inr b, st'') /\
    registrar st'' = registrar st' /\
    registrar st'' !! identifier = Some (SeparateContext b).
Proof.
  intros H. destruct (new_contract_impl_twice _ _ _ _ _ H) as (st'' & H2 & Hreg).
  exists st''. split; [exact H2 | split; [exact Hreg |]].
  destruct (new_contract_impl_registers _ _ _ _ _ H) as ((Hstored & _) & _).
  by rewrite Hreg.
Qed.

(** X9. The introspection of a callable does not depend on the state and
    touches neither table: it makes calls of [getcallargs] only, and its
    answer, when it returns one, is [(True, None)] or [(False, message)]
    with a message, never [False] without one. *)
Theorem introspection_is_pure (callable_thing : PyObj) (st st0 : State) :
  let out := can_accept_exactly_one_argument callable_thing st in
  out.1 = (can_accept_exactly_one_argument callable_thing st0).1 /\
  string2contract out.2 = string2contract st /\
  registrar out.2 = registrar st /\
  (exists made, calls_since st out.2 made /\
     Forall (fun c => exists f args, c = CallGetcallargs f args) made) /\
  (forall can err, out.1 = inr (can, err) ->
     (can = true /\ err = None) \/ (can = false /\ exists m, err = Some m)).
Proof.
  destruct (can_accept_exactly_one_argument_frame callable_thing st st0)
    as (Hsame & Hc & Hr & Hmade).
  split; [exact Hsame | split; [exact Hc | split; [exact Hr | split; [exact Hmade |]]]].
  intros can err. unfold can_accept_exactly_one_argument, introspected, getattr_call.
  unfold_M.
  assert (Htry : forall f args s,
             (try_getcallargs f args s).1 = inr (can, err) ->
             (can = true /\ err = None) \/ (can = false /\ exists m, err = Some m)).
  { intros f args s. unfold try_getcallargs.
    destruct (getcallargs f args) as [[] |]; simpl; intros [= <- <-]; eauto. }
  destruct callable_thing as [ | | | | | | f | self f | cls [f |]]; simpl;
    try discriminate; apply Htry.
Qed.

End RegistrationFrame.

(** ** Quotes in docstrings *)

Lemma string_length_app (a b : string) :
  String.length (a ++ b) = String.length a + String.length b.
Proof.
  induction a as [| c a IH]; [done |].
  change (S (String.length (a ++ b)) = S (String.length a + String.length b)).
  by rewrite IH.
Qed.

Lemma substring_skip_app (a b : string) (n m : nat) :
  String.substring (String.length a + n) m (a ++ b) = String.substring n m b.
Proof. induction a as [| c a IH]; [done | exact IH]. Qed.

Lemma substring_0_app (a b : string) :
  String.substring 0 (String.length a) (a ++ b) = a.
Proof.
  induction a as [| c a IH]; [by destruct b |].
  change (String c (String.substring 0 (String.length a) (a ++ b)) = String c a).
  by rewrite IH.
Qed.

Lemma substring_all (s : string) :
  String.substring 0 (String.length s) s = s.
Proof.
  induction s as [| c s IH]; [done |].
  change (String c (String.substring 0 (String.length s) s) = String c s).
  by rewrite IH.
Qed.

Lemma substring_split (s : string) :
  forall k m, k + m = String.length s ->
    s = String.substring 0 k s ++ String.substring k m s.
Proof.
  induction s as [| c s IH]; intros k m Hk.
  - destruct k, m; try done.
  - destruct k as [| k].
    + simpl in Hk. subst m.
      exact (eq_sym (substring_all (String c s))).
    + simpl in Hk.
      change (String c s
              = String c (String.substring 0 k s ++ String.substring k m s)).
      f_equal. apply IH. simpl in *. lia.
Qed.

Lemma startswith_app (a b : string) : startswith (a ++ b) a = true.
Proof.
  unfold startswith. induction a as [| c a IH]; [by destruct b |].
  simpl. by destruct (Ascii.ascii_dec c c).
Qed.

Section Quotes.
Context `{L : Library}.

Lemma remove_quotes_between (s : string) :
  remove_quotes ("``" ++ s ++ "``") = inr s.
Proof.
  assert (Hlen : String.length ("``" ++ s ++ "``") = S (S (String.length s + 2))).
  { rewrite !string_length_app. simpl. lia. }
  assert (Hend : endswith ("``" ++ s ++ "``") "``" = true).
  { unfold endswith. rewrite Hlen. apply andb_true_intro. split; [apply Nat.leb_le; simpl; lia |].
    apply bool_decide_eq_true.
    replace (S (S (String.length s + 2)) - String.length "``")
      with (String.length "``" + (String.length s + 0)) by (simpl; lia).
    rewrite substring_skip_app, substring_skip_app. reflexivity. }
  unfold remove_quotes. rewrite Hend, Hlen, startswith_app.
  replace (Nat.ltb 3 (S (S (String.length s + 2)))) with true
    by (symmetry; apply Nat.ltb_lt; lia).
  simpl andb. cbv iota. f_equal.
  replace (S (S (String.length s + 2)) - 4) with (String.length s) by lia.
  change 2 with (String.length "``" + 0) at 1.
  rewrite substring_skip_app. apply substring_0_app.
Qed.


(** X10. [remove_quotes] undoes quoting: a string put between two pairs of
    back-ticks comes back as it was, whatever it holds, the empty string
    and strings with back-ticks of their own included. *)
Theorem remove_quotes_quoted (s : string) :
  remove_quotes ("``" ++ s ++ "``") = inr s.
Proof. exact (remove_quotes_between s). Qed.

Lemma startswith_quotes (x : string) :
  startswith x "``" = true -> exists x', x = "``" ++ x'.
Proof.
  unfold startswith. generalize "``". intros a. revert x.
  induction a as [| c a IH]; intros x H; [by exists x |].
  destruct x as [| d x]; [discriminate |].
  cbn [String.prefix] in H. destruct (Ascii.ascii_dec c d) as [<- |]; [| discriminate].
  destruct (IH x H) as [x' ->]. by exists x'.
Qed.

Lemma endswith_quotes (x : string) :
  endswith x "``" = true ->
  x = String.substring 0 (String.length x - 2) x ++ "``".
Proof.
  unfold endswith. intros H. apply andb_prop in H as [Hlen Hsub].
  apply Nat.leb_le in Hlen. apply bool_decide_eq_true in Hsub. simpl in Hlen, Hsub.
  rewrite (substring_split x (String.length x - 2) 2) at 1 by lia.
  by rewrite Hsub.
Qed.

(** X11. What [remove_quotes] returns is its argument untouched, when the
    argument neither starts nor ends with two back-ticks, or else the
    argument without the pair of back-ticks at either end. It raises a
    [ContractException] exactly on the strings that start or end with two
    back-ticks without being a string between two pairs of them, such as
    one pair alone or three back-ticks. *)
Theorem remove_quotes_cases (x : string) :
  match remove_quotes x with
  | inr y =>
      (y = x /\ startswith x "``" = false /\ endswith x "``" = false) \/
      x = "``" ++ y ++ "``"
  | inl e =>
      (startswith x "``" = true \/ endswith x "``" = true) /\
      (forall y, x <> "``" ++ y ++ "``") /\
      exists msg, e = ContractException msg
  end.
Proof.
  unfold remove_quotes.
  destruct (startswith x "``") eqn:Hs; destruct (endswith x "``") eqn:He; simpl.
  - destruct (Nat.ltb 3 (String.length x)) eqn:Hl.
    + right. destruct (startswith_quotes x Hs) as [x' ->].
      apply Nat.ltb_lt in Hl. apply endswith_quotes in He.
      change (String.length ("``" ++ x')) with (S (S (String.length x'))) in *.
      assert (Hx' : 2 <= String.length x') by lia.
      replace (S (S (String.length x')) - 4) with (String.length x' - 2) by lia.
      replace (S (S (String.length x')) - 2) with (S (S (String.length x' - 2))) in He by lia.
      change (String.substring 0 (S (S (String.length x' - 2))) ("``" ++ x'))
        with ("``" ++ String.substring 0 (String.length x' - 2) x') in He.
      rewrite string_app_assoc in He.
      change (String.substring 2 (String.length x' - 2) ("``" ++ x'))
        with (String.substring 0 (String.length x' - 2) x').
      exact He.
    + split; [by left |]. split; [| eauto].
      intros y ->. apply Nat.ltb_ge in Hl.
      change (String.length ("``" ++ y ++ "``")) with (S (S (String.length (y ++ "``")))) in Hl.
      rewrite string_length_app in Hl. simpl in Hl. lia.
  - split; [by left |]. split; [| eauto].
    intros y ->. pose proof (remove_quotes_between y) as Hq. unfold remove_quotes in Hq.
    rewrite He in Hq. rewrite andb_false_r in Hq. simpl in Hq.
    rewrite startswith_app in Hq. simpl in Hq. discriminate.
  - split; [by right |]. split; [| eauto].
    intros y ->. by rewrite startswith_app in Hs.
  - by left.
Qed.

End Quotes.

(** ** The names of the arguments *)

(** X12. The names [get_all_arg_names] lists are exactly the non-empty
    parameter names of the function: the positional ones, the name that
    collects the extra positional arguments, the name that collects the extra
    keyword arguments, and the keyword-only ones. *)
Theorem get_all_arg_names_spec (f : Func) (name : string) :
  name ∈ get_all_arg_names f <->
  name <> "" /\
  (name ∈ func_args f \/ func_varargs f = Some name \/ func_varkw f = Some name \/
   name ∈ func_kwonlyargs f).
Proof.
  unfold get_all_arg_names. rewrite list_elem_of_omap. split.
  - intros (x & Hx & Hname). destruct x as [n |]; [| done].
    case_bool_decide as Hn; [done |]. injection Hname as ->. split; [done |].
    apply elem_of_app in Hx as [Hx | Hx].
    + left. apply list_elem_of_fmap in Hx as (y & [= ->] & Hy). done.
    + apply elem_of_cons in Hx as [Hx | Hx]; [right; left; done |].
      apply elem_of_cons in Hx as [Hx | Hx]; [right; right; left; done |].
      right; right; right. apply list_elem_of_fmap in Hx as (y & [= ->] & Hy). done.
  - intros (Hne & H). exists (Some name). split; [| by rewrite bool_decide_eq_false_2].
    apply elem_of_app. destruct H as [H | [H | [H | H]]].
    + left. by apply list_elem_of_fmap_2.
    + right. apply elem_of_cons. left. done.
    + right. apply elem_of_cons. right. apply elem_of_cons. left. done.
    + right. apply elem_of_cons. right. apply elem_of_cons. right.
      by apply list_elem_of_fmap_2.
Qed.

(** ** [new_contract] as a decorator *)

Section DecoratorForm.
Context `{L : Library}.

(** X13. [new_contract] applied to one function, as a decorator does,
    registers the function under its own name: when it returns, what it
    returns is the callable check of that function, the registry holds that
    check in a context of its own under the function's name, the name
    parses to the extension reference, and the function was found to accept
    one argument. *)
Theorem new_contract_as_decorator (f : Func) (st st' : State) (c : Contract) :
  new_contract [PyFunction f] st = (inr c, st') ->
  c = CheckCallable (PyFunction f) /\
  registered st' (func_name f) (SeparateContext (CheckCallable (PyFunction f))) /\
  exists bound, getcallargs (PyFunction f) [PyStr "test"] = inr bound.
Proof.
  unfold new_contract. intros H.
  destruct (new_contract_impl_registers _ _ _ _ _ H) as (Hreg & _ & Hc).
  assert (Hb : c = CheckCallable (PyFunction f)) by (apply Hc; intros d; discriminate).
  subst c. split; [done |]. split; [exact Hreg |].
  destruct (new_contract_impl_inr _ _ _ _ _ H) as (st1 & st2 & st3 & st4 & _ & _ & H3 & _).
  rewrite check_condition_callable in H3 by (try done; intros d; discriminate).
  unfold can_accept_exactly_one_argument, introspected, try_getcallargs in H3.
  unfold_M. simpl in H3.
  destruct (getcallargs (PyFunction f) [PyStr "test"]) as [e | bound]; [| by exists bound].
  destruct e; discriminate.
Qed.

End DecoratorForm.

(** ** The decorator *)

Ltac unfold_D :=
  unfold mbind, D_bind, mret, D_ret, fault, result, engine, print in *.

Section Decorating.
Context `{L : Library} `{G : Glue}.

Lemma remove_quotes_inl (x : string) (e : Raised) :
  remove_quotes x = inl e -> exists msg, e = ContractException msg.
Proof.
  unfold remove_quotes. destruct (_ && _ && _); [discriminate |].
  destruct (_ || _); [| discriminate]. intros [= <-]. eauto.
Qed.

Lemma unquote_all_inr (params name2type : list (string * string)) :
  unquote_all params = inr name2type ->
  Forall2 (fun p q => q.1 = p.1 /\ remove_quotes p.2 = inr q.2) params name2type.
Proof.
  revert name2type. induction params as [| [name t] params IH]; intros name2type.
  - intros [= <-]. constructor.
  - simpl. destruct (remove_quotes t) as [e | t'] eqn:Ht; [discriminate |].
    destruct (unquote_all params) as [e | rest]; [discriminate |].
    intros [= <-]. constructor; [done | by apply IH].
Qed.

Lemma unquote_all_inl (params : list (string * string)) (e : Raised) :
  unquote_all params = inl e -> exists msg, e = ContractException msg.
Proof.
  induction params as [| [name t] params IH]; [discriminate |].
  simpl. destruct (remove_quotes t) as [e' | t'] eqn:Ht.
  - intros [= <-]. by eapply remove_quotes_inl.
  - destruct (unquote_all params) as [e' | rest]; [| discriminate].
    intros [= <-]. by apply IH.
Qed.

Lemma check_no_extra_spec (names all : list string) :
  match check_no_extra names all with
  | inr _ => Forall (fun name => name ∈ all) names
  | inl e => (exists msg, e = ContractException msg) /\ exists name, name ∈ names /\ name ∉ all
  end.
Proof.
  induction names as [| name names IH]; simpl; [constructor |].
  case_bool_decide as Hin.
  - destruct (check_no_extra names all) as [e | []].
    + destruct IH as [Hmsg (n & Hn & Hnot)]. split; [done |].
      exists n. split; [by apply elem_of_cons; right | done].
    + by constructor.
  - split; [eauto |]. exists name. split; [by apply elem_of_cons; left | done].
Qed.

Lemma check_known_spec (names all : list string) :
  match check_known names all with
  | inr _ => Forall (fun name => name ∈ all) names
  | inl e => (exists msg, e = ContractException msg) /\ exists name, name ∈ names /\ name ∉ all
  end.
Proof.
  induction names as [| name names IH]; simpl; [constructor |].
  case_bool_decide as Hin.
  - destruct (check_known names all) as [e | []].
    + destruct IH as [Hmsg (n & Hn & Hnot)]. split; [done |].
      exists n. split; [by apply elem_of_cons; right | done].
    + by constructor.
  - split; [eauto |]. exists name. split; [by apply elem_of_cons; left | done].
Qed.

(** X14. What [parse_contracts_from_docstring] gives for a function. When
    it returns, there is at most one documented return type; every
    documented parameter is among the function's argument names and keeps
    its name, with its type unquoted; the return type is [None] when none is
    documented and the unquoted one otherwise. Whatever it raises is a
    [ContractException]. *)
Theorem docstring_contracts (function : Function) :
  let annotations := parse_docstring_annotations (fn_doc function) in
  match parse_contracts_from_docstring function with
  | inr (name2type, returns) =>
      Forall2 (fun p q => q.1 = p.1 /\ remove_quotes p.2 = inr q.2)
        (doc_params annotations) name2type /\
      Forall (fun q => q.1 ∈ get_all_arg_names (fn_spec function)) name2type /\
      match doc_returns annotations with
      | [] => returns = None
      | [t] => exists t', returns = Some t' /\ remove_quotes t = inr t'
      | _ => False
      end
  | inl e => exists msg, e = ContractException msg
  end.
Proof.
  intros annotations. unfold parse_contracts_from_docstring. fold annotations.
  destruct (doc_returns annotations) as [| t [| t2 more]]; simpl.
  - destruct (unquote_all (doc_params annotations)) as [e | name2type] eqn:Hu.
    { by eapply unquote_all_inl. }
    pose proof (check_no_extra_spec (name2type.*1) (get_all_arg_names (fn_spec function)))
      as Hx.
    destruct (check_no_extra _ _) as [e | []]; [by destruct Hx |].
    split; [by apply unquote_all_inr |]. split; [| done].
    by apply Forall_fmap in Hx.
  - destruct (remove_quotes t) as [e | t'] eqn:Ht; [by eapply remove_quotes_inl |].
    destruct (unquote_all (doc_params annotations)) as [e | name2type] eqn:Hu.
    { by eapply unquote_all_inl. }
    pose proof (check_no_extra_spec (name2type.*1) (get_all_arg_names (fn_spec function)))
      as Hx.
    destruct (check_no_extra _ _) as [e | []]; [by destruct Hx |].
    split; [by apply unquote_all_inr |]. split; [by apply Forall_fmap in Hx | by exists t'].
  - eauto.
Qed.

Lemma remove_quotes_plain (t : string) :
  startswith t "``" = false -> endswith t "``" = false -> remove_quotes t = inr t.
Proof. unfold remove_quotes. by intros -> ->. Qed.

Lemma unquote_all_quoted (quoted plain : list (string * string)) :
  Forall2 (fun p q => p.1 = q.1 /\ (p.2 = q.2 \/ p.2 = "``" ++ q.2 ++ "``")) quoted plain ->
  Forall (fun q => startswith q.2 "``" = false /\ endswith q.2 "``" = false) plain ->
  unquote_all quoted = inr plain.
Proof.
  induction 1 as [| [n t] [n' t'] quoted plain [Hn Ht] _ IH]; intros Hplain; [done |].
  apply Forall_cons in Hplain as [[Hs He] Hplain]. simpl in *. subst n'.
  assert (Hq : remove_quotes t = inr t').
  { destruct Ht as [-> | ->]; [by apply remove_quotes_plain | apply remove_quotes_between]. }
  by rewrite Hq, (IH Hplain).
Qed.

(** X22. Quoting a type of the docstring between two pairs of back-ticks
    changes nothing: for two functions of the same signature whose
    docstrings document the same parameters and return values with the same
    types, quoted in the one where the other has them bare, and bare types
    that neither start nor end with two back-ticks,
    [parse_contracts_from_docstring] gives the same for both. *)
Theorem docstring_quoting_is_transparent (f g : Function) :
  fn_spec f = fn_spec g ->
  Forall2 (fun p q => p.1 = q.1 /\ (p.2 = q.2 \/ p.2 = "``" ++ q.2 ++ "``"))
    (doc_params (parse_docstring_annotations (fn_doc f)))
    (doc_params (parse_docstring_annotations (fn_doc g))) ->
  Forall2 (fun p q => p = q \/ p = "``" ++ q ++ "``")
    (doc_returns (parse_docstring_annotations (fn_doc f)))
    (doc_returns (parse_docstring_annotations (fn_doc g))) ->
  Forall (fun q => startswith q.2 "``" = false /\ endswith q.2 "``" = false)
    (doc_params (parse_docstring_annotations (fn_doc g))) ->
  Forall (fun q => startswith q "``" = false /\ endswith q "``" = false)
    (doc_returns (parse_docstring_annotations (fn_doc g))) ->
  parse_contracts_from_docstring f = parse_contracts_from_docstring g.
Proof.
  intros Hspec Hparams Hreturns Hpp Hpr. unfold parse_contracts_from_docstring.
  rewrite (Forall2_length _ _ _ Hreturns), Hspec.
  destruct (Nat.ltb 1 _); [done |].
  assert (Hg : unquote_all (doc_params (parse_docstring_annotations (fn_doc g)))
               = inr (doc_params (parse_docstring_annotations (fn_doc g)))).
  { apply unquote_all_quoted; [| done]. apply Forall2_same_length_lookup_2.
    - done.
    - intros i p q Hp Hq. rewrite Hp in Hq. injection Hq as ->. split; [done | by left]. }
  rewrite (unquote_all_quoted _ _ Hparams Hpp), Hg.
  destruct Hreturns as [| p q ps qs Hpq _]; [done |].
  apply Forall_cons in Hpr as [[Hs He] _].
  rewrite (remove_quotes_plain q Hs He).
  destruct Hpq as [-> | ->]; [by rewrite (remove_quotes_plain q Hs He) |].
  by rewrite remove_quotes_between.
Qed.

(** X15. A keyword that is neither [returns] nor the name of an argument
    of the function is refused: [contracts_decorate] raises a
    [ContractException], and it does so before any contract is parsed, so
    that the cache, the registry and the output are as they were. *)
Theorem decorate_unknown_keyword (function : Function) (kwargs : list (string * Spec))
    (kw : string) (w : World) :
  kw ∈ kwargs.*1 -> kw <> "returns" -> kw ∉ get_all_arg_names (fn_spec function) ->
  exists msg, contracts_decorate function kwargs w = (inl (ContractException msg), w).
Proof.
  intros Hin Hne Hnot.
  destruct kwargs as [| k kwargs]; [by apply elem_of_nil in Hin |].
  unfold contracts_decorate, find_contracts. unfold_D.
  pose proof (check_known_spec ((pop "returns" (k :: kwargs)).2.*1)
                (get_all_arg_names (fn_spec function))) as Hk.
  destruct (check_known _ _) as [e | []].
  - destruct Hk as [[msg ->] _]. by exists msg.
  - exfalso. apply Hnot. rewrite Forall_forall in Hk. apply Hk.
    apply list_elem_of_fmap in Hin as ([k' spec] & -> & Hin).
    apply list_elem_of_fmap. exists (k', spec). split; [done |].
    unfold pop. simpl. apply list_elem_of_filter. done.
Qed.

(** X17. With no keyword, no annotation and nothing to read the types
    from, either because the function has no docstring or because its
    docstring documents no type, [contracts_decorate] raises a
    [ContractException] and leaves the cache, the registry and the output
    as they were. *)
Theorem decorate_nothing_to_go_on (function : Function) (w : World) :
  fn_annotations function = [] ->
  (fn_doc function = None \/
   (doc_params (parse_docstring_annotations (fn_doc function)) = [] /\
    doc_returns (parse_docstring_annotations (fn_doc function)) = [])) ->
  exists msg, contracts_decorate function [] w = (inl (ContractException msg), w).
Proof.
  intros Hann Hdoc. unfold contracts_decorate, find_contracts. rewrite Hann.
  destruct (fn_doc function) as [doc |] eqn:Hd; [| unfold_D; eauto].
  destruct Hdoc as [| [Hp Hr]]; [done |].
  unfold parse_contracts_from_docstring. rewrite Hd, Hp, Hr. simpl.
  unfold_D. simpl. eauto.
Qed.

Lemma keeps_world_ret {A} (a : A) : keeps_world (mret a : D A).
Proof. intros w r w' [= <- <-]. auto. Qed.

Lemma keeps_world_fault {A} (e : Raised) : keeps_world (fault e : D A).
Proof. intros w r w' [= <- <-]. auto. Qed.

Lemma keeps_world_engine {A} (m : M A) : keeps_tables m -> keeps_world (engine m).
Proof.
  intros Hm w r w'. unfold engine.
  destruct (m (engine_state w)) as [[e | a] st'] eqn:H; destruct (Hm _ _ _ H) as (? & ? & ?);
    intros [= <- <-]; auto.
Qed.

Lemma keeps_world_bind {A B} (m : D A) (f : A -> D B) :
  keeps_world m -> (forall a, keeps_world (f a)) -> keeps_world (m ≫= f).
Proof.
  intros Hm Hf w r w'. unfold_D.
  destruct (m w) as [[e | a] w1] eqn:H1; destruct (Hm _ _ _ H1) as (Ho1 & Hr1 & Hs1 & Hc1).
  - by intros [= <- <-].
  - intros H2. destruct (Hf a _ _ _ H2) as (Ho2 & Hr2 & Hs2 & Hc2).
    split; [congruence |]. split; [congruence |]. split; auto.
Qed.

Lemma keeps_world_parse_flexible_spec (spec : Spec) : keeps_world (parse_flexible_spec spec).
Proof.
  destruct spec as [o | t]; [| apply keeps_world_ret].
  destruct o; try apply keeps_world_fault.
  apply keeps_world_engine, keeps_parse_contract_string.
Qed.

Lemma keeps_world_parse_accepts (accepts_dict : list (string * Spec)) :
  forall parsed, keeps_world (parse_accepts accepts_dict parsed).
Proof.
  induction accepts_dict as [| [x spec] accepts_dict IH]; intros parsed.
  - apply keeps_world_ret.
  - apply keeps_world_bind; [apply keeps_world_parse_flexible_spec | intros c; apply IH].
Qed.

(** [find_contracts] does not reach the engine, and prints the annotations
    when it takes the contracts from them. *)
Lemma find_contracts_frame (function : Function) (all : list string)
    (kwargs : list (string * Spec)) (w : World) r w' :
  find_contracts function all kwargs w = (r, w') ->
  engine_state w' = engine_state w /\
  stdout w' = (stdout w ++ match kwargs, fn_annotations function with
                           | [], _ :: _ => [str_annotations (fn_annotations function)]
                           | _, _ => []
                           end)%list.
Proof.
  unfold find_contracts. destruct kwargs as [| k kwargs].
  - destruct (fn_annotations function) as [| a annotations].
    + destruct (fn_doc function) as [doc |].
      * unfold_D. destruct (parse_contracts_from_docstring function) as [e | found].
        -- intros [= <- <-]. by rewrite app_nil_r.
        -- destruct (_ && _); intros [= <- <-]; by rewrite app_nil_r.
      * unfold_D. intros [= <- <-]. by rewrite app_nil_r.
    + unfold_D. by intros [= <- <-].
  - unfold_D. destruct (check_known _ _) as [e | []]; intros [= <- <-]; by rewrite app_nil_r.
Qed.

(** X16. Whether it returns or raises, [contracts_decorate] never writes
    the registry and never removes or replaces a cached node, and a sound
    cache stays sound. It prints exactly when it is given no keyword and the
    function has annotations, and then it prints the annotations, once. *)
Theorem decorate_frame (function : Function) (kwargs : list (string * Spec))
    (w : World) r w' :
  contracts_decorate function kwargs w = (r, w') ->
  registrar (engine_state w') = registrar (engine_state w) /\
  (cache_sound (engine_state w) -> cache_sound (engine_state w')) /\
  (forall s c, string2contract (engine_state w) !! s = Some c ->
               string2contract (engine_state w') !! s = Some c) /\
  stdout w' = (stdout w ++ match kwargs, fn_annotations function with
                           | [], _ :: _ => [str_annotations (fn_annotations function)]
                           | _, _ => []
                           end)%list.
Proof.
  unfold contracts_decorate. unfold mbind at 1. unfold D_bind.
  destruct (find_contracts _ _ _ w) as [[e | found] w1] eqn:Hf;
    destruct (find_contracts_frame _ _ _ _ _ _ Hf) as [Hst Hout].
  - intros [= <- <-]. rewrite Hst. auto.
  - intros Hrest.
    assert (Hk : keeps_world
              (accepts_parsed ← parse_accepts found.1 ∅;
               returns_parsed ← parse_flexible_spec
                                  (if is_None found.2 then SpecObject (PyStr "*")
                                   else found.2);
               mret (mkDecorated function (get_all_arg_names (fn_spec function))
                       accepts_parsed returns_parsed (fn_doc function)
                       (func_name (fn_spec function)) (fn_module function)))).
    { apply keeps_world_bind; [apply keeps_world_parse_accepts |]. intros a.
      apply keeps_world_bind; [apply keeps_world_parse_flexible_spec |]. intros c.
      apply keeps_world_ret. }
    destruct (Hk _ _ _ Hrest) as (Ho & Hr & Hs & Hc). rewrite Hst in *.
    split; [done |]. split; [done |]. split; [done |]. by rewrite Ho.
Qed.

(** The contracts come from the keywords when there is one, and from the
    annotations otherwise when there is one: what lies further down the
    order of precedence is not looked at. *)
Lemma find_contracts_precedence (f g : Function) (all : list string)
    (kwargs : list (string * Spec)) (w : World) :
  kwargs <> [] \/ (fn_annotations f = fn_annotations g /\ fn_annotations f <> []) ->
  find_contracts f all kwargs w = find_contracts g all kwargs w.
Proof.
  unfold find_contracts. destruct kwargs as [| k kwargs]; [| done].
  intros [| [Heq Hne]]; [done |]. rewrite <- Heq.
  by destruct (fn_annotations f).
Qed.

(** X18. The order of precedence of the three sources. For two functions
    with the same signature, given the same keywords, [contracts_decorate]
    raises the same or gives the same contracts for the arguments and for
    the result, and leaves the same state, whatever their annotations and
    docstrings, as soon as there is a keyword; and, with no keyword,
    whatever their docstrings as soon as they have the same annotations
    and there is one. *)
Theorem decorate_precedence (f g : Function) (kwargs : list (string * Spec)) (w : World) :
  fn_spec f = fn_spec g ->
  kwargs <> [] \/ (fn_annotations f = fn_annotations g /\ fn_annotations f <> []) ->
  (contracts_decorate f kwargs w).2 = (contracts_decorate g kwargs w).2 /\
  match (contracts_decorate f kwargs w).1, (contracts_decorate g kwargs w).1 with
  | inr d, inr d' =>
      all_args d = all_args d' /\ accepts_parsed d = accepts_parsed d' /\
      returns_parsed d = returns_parsed d'
  | inl e, inl e' => e = e'
  | _, _ => False
  end.
Proof.
  intros Hspec Hsrc. unfold contracts_decorate. rewrite <- Hspec.
  unfold_D. rewrite <- (find_contracts_precedence f g _ _ _ Hsrc).
  destruct (find_contracts f _ kwargs w) as [[e | found] w1]; [done |].
  destruct (parse_accepts found.1 ∅ w1) as [[e | accepts] w2]; [done |].
  destruct (parse_flexible_spec _ w2) as [[e | returns] w3]; done.
Qed.

Lemma parse_flexible_spec_denotes (spec : Spec) (w : World) (c : Contract) (w' : World) :
  cache_sound (engine_state w) ->
  parse_flexible_spec spec w = (inr c, w') ->
  denotes (registrar (engine_state w)) spec c.
Proof.
  intros Hsound. destruct spec as [o | t]; [| by intros [= <- <-]].
  destruct o; try discriminate. simpl. unfold engine.
  destruct (parse_contract_string s (engine_state w)) as [[e | c'] st'] eqn:Hp;
    intros [= <- <-].
  destruct (parse_contract_string_inr _ _ _ _ Hp) as (Hc & Hr & _).
  pose proof (parse_contract_string_sound _ _ _ _ Hsound Hp) as Hs'.
  rewrite <- Hr. by apply Hs'.
Qed.

Lemma parse_accepts_spec (accepts_dict : list (string * Spec)) :
  forall parsed w m w',
    cache_sound (engine_state w) -> NoDup accepts_dict.*1 ->
    parse_accepts accepts_dict parsed w = (inr m, w') ->
    (forall x spec, (x, spec) ∈ accepts_dict ->
       exists c, m !! x = Some c /\ denotes (registrar (engine_state w)) spec c) /\
    (forall x, x ∉ accepts_dict.*1 -> m !! x = parsed !! x).
Proof.
  induction accepts_dict as [| [x spec] accepts_dict IH]; intros parsed w m w' Hsound Hnd.
  - intros [= <- <-]. split; [intros x spec Hin; by apply elem_of_nil in Hin | done].
  - simpl. unfold mbind, D_bind.
    destruct (parse_flexible_spec spec w) as [[e | c] w1] eqn:Hp; [discriminate |].
    intros Hrest. apply NoDup_cons in Hnd as [Hx Hnd].
    destruct (keeps_world_parse_flexible_spec _ _ _ _ Hp) as (_ & Hr1 & Hs1 & _).
    destruct (IH _ _ _ _ (Hs1 Hsound) Hnd Hrest) as [Hin Hout]. rewrite Hr1 in Hin.
    split.
    + intros y sp Hy. apply elem_of_cons in Hy as [[= -> ->] | Hy]; [| by apply Hin].
      exists c. split; [| by eapply parse_flexible_spec_denotes].
      rewrite (Hout x Hx). apply lookup_insert_eq.
    + intros y Hy. apply not_elem_of_cons in Hy as [Hne Hy].
      rewrite (Hout y Hy). by apply lookup_insert_ne.
Qed.

Lemma find_key {V} (key : string) (v : V) (d : list (string * V)) :
  NoDup d.*1 -> (key, v) ∈ d ->
  find (fun kv => bool_decide (kv.1 = key)) d = Some (key, v).
Proof.
  induction d as [| [k u] d IH]; intros Hnd Hin; [by apply elem_of_nil in Hin |].
  apply NoDup_cons in Hnd as [Hk Hnd]. simpl.
  apply elem_of_cons in Hin as [[= <- <-] | Hin].
  - by rewrite bool_decide_eq_true_2.
  - rewrite bool_decide_eq_false_2; [by apply IH |].
    simpl. intros ->. apply Hk. apply list_elem_of_fmap. by exists (key, v).
Qed.

Lemma find_no_key {V} (key : string) (d : list (string * V)) :
  key ∉ d.*1 -> find (fun kv => bool_decide (kv.1 = key)) d = None.
Proof.
  induction d as [| [k u] d IH]; intros Hk; [done |].
  apply not_elem_of_cons in Hk as [Hne Hk]. simpl.
  rewrite bool_decide_eq_false_2 by (simpl; intros Heq; by apply Hne). by apply IH.
Qed.

Lemma NoDup_filter_keys {V} (P : string * V -> Prop) `{!forall kv, Decision (P kv)}
    (d : list (string * V)) :
  NoDup d.*1 -> NoDup (filter P d).*1.
Proof.
  induction d as [| kv d IH]; intros Hnd; [constructor |].
  apply NoDup_cons in Hnd as [Hk Hnd]. rewrite filter_cons.
  destruct (decide (P kv)); [| by apply IH].
  simpl. apply NoDup_cons. split; [| by apply IH].
  intros Hin. apply Hk. apply list_elem_of_fmap in Hin as (kv' & -> & Hin).
  apply list_elem_of_filter in Hin as [_ Hin]. apply list_elem_of_fmap. by exists kv'.
Qed.

Lemma is_None_spec (spec : Spec) : is_None spec = true <-> spec = SpecObject PyNone.
Proof. destruct spec as [[] |]; simpl; split; (done || discriminate). Qed.

(** X19. The contracts given as keywords. When [contracts_decorate]
    returns, on keywords with distinct names and a sound cache, the wrapper
    holds a contract exactly for the keywords other than [returns], each of
    them the name of an argument of the function; the contract of a keyword
    is the node the grammar gives for its string against the registry of
    the moment, or the type check of its type; and the contract of the
    result is the one of the keyword [returns] when its value is not
    [None], and that of ["*"] when the value is [None] or there is no such
    keyword. *)
Theorem decorate_keywords (function : Function) (kwargs : list (string * Spec))
    (w : World) (d : Decorated) (w' : World) :
  cache_sound (engine_state w) -> kwargs <> [] -> NoDup kwargs.*1 ->
  contracts_decorate function kwargs w = (inr d, w') ->
  (forall x, is_Some (accepts_parsed d !! x) ->
     x ∈ kwargs.*1 /\ x <> "returns" /\ x ∈ get_all_arg_names (fn_spec function)) /\
  (forall x spec, (x, spec) ∈ kwargs -> x <> "returns" ->
     exists c, accepts_parsed d !! x = Some c /\
               denotes (registrar (engine_state w)) spec c) /\
  (forall spec, ("returns", spec) ∈ kwargs -> spec <> SpecObject PyNone ->
     denotes (registrar (engine_state w)) spec (returns_parsed d)) /\
  ("returns" ∉ kwargs.*1 \/ ("returns", SpecObject PyNone) ∈ kwargs ->
     denotes (registrar (engine_state w)) (SpecObject (PyStr "*")) (returns_parsed d)).
Proof.
  intros Hsound Hne Hnd. destruct kwargs as [| k kwargs]; [done |].
  unfold contracts_decorate, find_contracts. unfold mbind at 1 2. unfold D_bind, result.
  pose proof (check_known_spec ((pop "returns" (k :: kwargs)).2.*1)
                (get_all_arg_names (fn_spec function))) as Hknown.
  destruct (check_known _ _) as [e | []]; [discriminate |].
  unfold mret at 1. unfold D_ret. unfold mbind at 1. unfold D_bind.
  cbn [fst snd].
  destruct (parse_accepts (pop "returns" (k :: kwargs)).2 ∅ w) as [[e | accepts] w1] eqn:Ha;
    [discriminate |].
  unfold mbind, D_bind.
  destruct (parse_flexible_spec _ w1) as [[e | returns] w2] eqn:Hr; [discriminate |].
  intros [= <- <-]. cbn [accepts_parsed returns_parsed].
  assert (Hnd' : NoDup (pop "returns" (k :: kwargs)).2.*1) by (by apply NoDup_filter_keys).
  destruct (parse_accepts_spec _ _ _ _ _ Hsound Hnd' Ha) as [Hin Hout].
  destruct (keeps_world_parse_accepts _ _ _ _ _ Ha) as (_ & Hr1 & Hs1 & _).
  pose proof (parse_flexible_spec_denotes _ _ _ _ (Hs1 Hsound) Hr) as Hret.
  rewrite Hr1 in Hret.
  assert (Hkeys : forall x, x ∈ (pop "returns" (k :: kwargs)).2.*1 <->
                            x ∈ (k :: kwargs).*1 /\ x <> "returns").
  { intros x. unfold pop. cbn [snd]. rewrite !list_elem_of_fmap. split.
    - intros (kv & -> & Hkv). apply list_elem_of_filter in Hkv as [Hkv1 Hkv2].
      split; [by exists kv | done].
    - intros [(kv & -> & Hkv) Hx]. exists kv. split; [done |].
      by apply list_elem_of_filter. }
  split; [| split; [| split]].
  - intros x Hx. destruct (decide (x ∈ (pop "returns" (k :: kwargs)).2.*1)) as [Hk | Hk].
    + rewrite Forall_forall in Hknown. split; [by apply Hkeys |].
      split; [by apply Hkeys | by apply Hknown].
    + rewrite (Hout x Hk), lookup_empty in Hx. by destruct Hx.
  - intros x spec Hx Hxr. apply Hin. unfold pop. cbn [snd].
    by apply list_elem_of_filter.
  - intros spec Hspec Hsome. unfold pop in Hret. cbn [fst] in Hret.
    rewrite (find_key _ _ _ Hnd Hspec) in Hret. cbn [from_option snd] in Hret.
    destruct (is_None spec) eqn:Hn; [by apply is_None_spec in Hn | done].
  - intros Hno. unfold pop in Hret. cbn [fst] in Hret. destruct Hno as [Hno | Hno].
    + by rewrite (find_no_key _ _ Hno) in Hret.
    + by rewrite (find_key _ _ _ Hnd Hno) in Hret.
Qed.

(** ** The wrapper *)

(** The loop over the argument names is the run over the arguments that
    have a contract, and the log shows the checks that were made. *)
Lemma check_arguments_in_order (all : list string) (accepts : gmap string Contract)
    (bound : gmap string PyObj) :
  (forall arg, arg ∈ all -> is_Some (accepts !! arg) -> is_Some (bound !! arg)) ->
  forall context w,
    check_arguments all accepts bound context w
    = (match check_in_order (registrar (engine_state w)) context
               (argument_pairs all accepts bound) with
       | inl e => inl (Engine e)
       | inr context' => inr context'
       end,
       mkWorld (checked (attempted (registrar (engine_state w)) context
                           (argument_pairs all accepts bound)) (engine_state w))
         (stdout w)).
Proof.
  induction all as [| arg all IH]; intros Hbound context w.
  - simpl. rewrite checked_nil. by destruct w.
  - assert (Hrest : forall a, a ∈ all -> is_Some (accepts !! a) -> is_Some (bound !! a)).
    { intros a Ha. apply Hbound. by apply elem_of_cons; right. }
    unfold argument_pairs. simpl.
    destruct (accepts !! arg) as [c |] eqn:Hc; [| by apply IH].
    destruct (Hbound arg ltac:(by apply elem_of_cons; left) ltac:(by rewrite Hc)) as [v Hv].
    rewrite Hv. simpl. unfold mbind, D_bind, engine, call_check.
    destruct (_check_contract (registrar (engine_state w)) c context v) as [e | context1].
    + by rewrite <- checked_log, checked_nil.
    + rewrite (IH Hrest). simpl. by rewrite checked_log.
Qed.

(** X20. The wrapper checks the arguments before the call: when the
    arguments are bound and one of those that have a contract is refused,
    the wrapper raises what that check raised, the log shows the checks up
    to that one, in the order of the argument names and against one
    context, and the outcome owes nothing to the function, which is not
    called. *)
Theorem wrapper_rejects_before_calling (d : Decorated) (args : list PyObj)
    (kwargs : list (string * PyObj)) (bound : gmap string PyObj) (e : Exn) (w : World) :
  bind_arguments (fn_spec (function d)) args kwargs = inr bound ->
  (forall arg, arg ∈ all_args d -> is_Some (accepts_parsed d !! arg) ->
               is_Some (bound !! arg)) ->
  check_in_order (registrar (engine_state w)) Context_new
    (argument_pairs (all_args d) (accepts_parsed d) bound) = inl e ->
  wrapper d args kwargs w
  = (inl (Engine e),
     mkWorld (checked (attempted (registrar (engine_state w)) Context_new
                         (argument_pairs (all_args d) (accepts_parsed d) bound))
                (engine_state w))
       (stdout w)).
Proof.
  intros Hbind Hbound Hfail. unfold wrapper. rewrite Hbind.
  unfold mbind at 1. unfold D_bind, result.
  unfold mbind at 1. unfold D_bind.
  by rewrite (check_arguments_in_order _ _ _ Hbound), Hfail.
Qed.

(** X21. The wrapper on arguments that pass: the function is called once
    the checks of the arguments are made, in the order of the argument
    names and against one context; the value it returns is checked against
    the contract of the result in the context those checks left, with the
    registry of that moment; and the wrapper returns that very value when
    the check passes, and raises what the check raised otherwise. *)
Theorem wrapper_checks_result_in_same_context (d : Decorated) (args : list PyObj)
    (kwargs : list (string * PyObj)) (bound : gmap string PyObj) (context : Context)
    (r : PyObj) (w w2 : World) :
  bind_arguments (fn_spec (function d)) args kwargs = inr bound ->
  (forall arg, arg ∈ all_args d -> is_Some (accepts_parsed d !! arg) ->
               is_Some (bound !! arg)) ->
  check_in_order (registrar (engine_state w)) Context_new
    (argument_pairs (all_args d) (accepts_parsed d) bound) = inr context ->
  fn_call (function d) args kwargs
    (mkWorld (checked (argument_pairs (all_args d) (accepts_parsed d) bound)
                (engine_state w)) (stdout w)) = (inr r, w2) ->
  wrapper d args kwargs w
  = (match _check_contract (registrar (engine_state w2)) (returns_parsed d) context r with
     | inl e => inl (Engine e)
     | inr _ => inr r
     end,
     mkWorld (log (CallCheck (returns_parsed d) r) (engine_state w2)) (stdout w2)).
Proof.
  intros Hbind Hbound Hpass Hcall. unfold wrapper. rewrite Hbind.
  unfold mbind at 1. unfold D_bind, result.
  unfold mbind at 1. unfold D_bind.
  rewrite (check_arguments_in_order _ _ _ Hbound), Hpass.
  rewrite (check_in_order_attempted _ _ _ _ Hpass).
  unfold mbind at 1. unfold D_bind. rewrite Hcall.
  unfold mbind, D_bind, engine, call_check.
  by destruct (_check_contract _ _ _ _).
Qed.

End Decorating.
(** * The engine at work on the demo library *)

Import Demo.

(** [parse_contract_string "int"] from the initial state, then again. *)
Lemma parse_contract_string_cached_witness :
  let st' := (parse_contract_string "int" initial).2 in
  parse_contract_string "int" initial = (inr (CheckType "int"), st') /\
  string2contract st' !! "int" = Some (CheckType "int") /\
  parse_contract_string "int" st' = (inr (CheckType "int"), st').
Proof.
  intros st'.
  assert (H : parse_contract_string "int" initial = (inr (CheckType "int"), st'))
    by reflexivity.
  destruct (parse_contract_string_cached "int" initial st' (CheckType "int") H)
    as (H1 & H2 & _).
  split; [exact H | split; [exact H1 | exact H2]].
Defined.

(** The empty string and ["int junk"] in the initial state of Demo. *)
Lemma parse_contract_string_malformed_witness :
  cache_sound initial /\
  (exists e, (parse_contract_string "" initial).1
             = inl (ContractSyntaxError (pe_str e) (mkWhere "" (lineno e) (col e)))) /\
  (exists e, (parse_contract_string "int junk" initial).1
             = inl (ContractSyntaxError (pe_str e) (mkWhere "int junk" (lineno e) (col e)))).
Proof.
  pose proof (parse_contract_string_malformed initial cache_sound_initial)
    as (_ & [e He] & Htrail & _).
  split; [exact cache_sound_initial | split].
  - exists e. by rewrite He.
  - destruct (Htrail "int junk" (CheckType "int") " junk") as [e' He'];
      [reflexivity | discriminate |].
    exists e'. by rewrite He'.
Defined.

Lemma check_multiple_shared_context_witness :
  cache_sound initial /\ two_lists <> [] /\
  (check_multiple two_lists None initial).1 = inr [("N", PyInt 3)].
Proof.
  assert (Hne : two_lists <> []) by discriminate.
  split; [exact cache_sound_initial | split; [exact Hne |]].
  destruct (check_multiple_shared_context two_lists None initial cache_sound_initial Hne)
    as (context0 & st0 & Hguard & H).
  assert (Hst0 : st0 = (check (PyStr couples_contract) (couples_value two_lists)
                          (Some couples_expected) initial).2) by (by rewrite Hguard).
  subst st0.
  set (st0 := (check (PyStr couples_contract) (couples_value two_lists)
                 (Some couples_expected) initial).2) in *.
  assert (Hp : parse_loop (map fst two_lists) [] st0
               = (inr [Combine "list" (Clause "N") (Clause "*");
                       Combine "list" (Clause "N") (Clause "*")],
                  (parse_loop (map fst two_lists) [] st0).2))
    by (vm_compute; reflexivity).
  rewrite Hp in H. destruct H as (_ & _ & Hok & _).
  rewrite (Hok [("N", PyInt 3)]); [reflexivity | vm_compute; reflexivity].
Defined.

(** The second list is longer: its check finds [N] bound to 3 and fails. *)
Example check_multiple_second_list_fails :
  exists v,
    (check_multiple
       [("list[N]", PyList [PyInt 1; PyInt 2; PyInt 3]);
        ("list[N]", PyList [PyInt 1; PyInt 2; PyInt 3; PyInt 4])] None initial).1
    = inl (ContractNotRespected v).
Proof. eexists. vm_compute. reflexivity. Qed.

Lemma register_redefinition_witness :
  registered pos_registered "pos" (SeparateContext positive_int) /\
  (new_contract_impl (PyStr "pos") (PyStr "int,>0") pos_registered).1 = inr positive_int /\
  exists msg,
    (new_contract_impl (PyStr "pos") (PyStr "int,<0") pos_registered).1
    = inl (ValueError msg) /\
    mentions msg (repr_Contract (SeparateContext positive_int)) /\
    mentions msg (repr_Contract (SeparateContext negative_int)).
Proof.
  assert (Hreg : registered pos_registered "pos" (SeparateContext positive_int)).
  { split; [by vm_compute | split; [eexists; by vm_compute | by vm_compute]]. }
  split; [exact Hreg | split].
  - destruct (register_redefinition "pos" (SeparateContext positive_int) (PyStr "int,>0")
                pos_registered
                (check_condition (PyStr "int,>0") (log (CallIdentifier "pos") pos_registered)).2
                positive_int Hreg) as [Hsame _]; [by vm_compute |].
    destruct (Hsame eq_refl) as [-> _]. reflexivity.
  - destruct (register_redefinition "pos" (SeparateContext positive_int) (PyStr "int,<0")
                pos_registered
                (check_condition (PyStr "int,<0") (log (CallIdentifier "pos") pos_registered)).2
                negative_int Hreg) as [_ Hdiff]; [by vm_compute |].
    destruct (Hdiff ltac:(discriminate)) as (msg & -> & Hold & Hnew & _).
    exists msg. by split.
Defined.

Lemma register_then_parse_witness :
  (new_contract_impl (PyStr "pos") (PyStr "int,>0") initial).1 = inr positive_int /\
  registrar pos_registered !! "pos" = Some (SeparateContext positive_int) /\
  (parse_contract_string "pos" pos_registered).1 = inr (Extension "pos").
Proof.
  assert (H : new_contract_impl (PyStr "pos") (PyStr "int,>0") initial
              = (inr positive_int, pos_registered)) by (by vm_compute).
  destruct (register_then_parse "pos" (PyStr "int,>0") initial pos_registered positive_int H)
    as (Hstored & _ & _ & Hparse & _).
  split; [by rewrite H | split; [exact Hstored | by rewrite Hparse]].
Defined.

(** After ["pos"] is registered as ["int,>0"], parsing ["pos"] gives the
    extension reference, which is not the isolation wrapper of the parse of
    ["int,>0"]. *)
Lemma register_then_parse_counterexample :
  (new_contract_impl (PyStr "pos") (PyStr "int,>0") initial).1 = inr positive_int /\
  (parse_contract_string "int,>0" pos_registered).1 = inr positive_int /\
  (parse_contract_string "pos" pos_registered).1 = inr (Extension "pos") /\
  ~ (forall c d,
       (parse_contract_string "pos" pos_registered).1 = inr c ->
       (parse_contract_string "int,>0" pos_registered).1 = inr d ->
       c = SeparateContext d).
Proof.
  split; [by vm_compute | split; [by vm_compute | split; [by vm_compute |]]].
  intros H. specialize (H (Extension "pos") positive_int).
  assert (Hc : Extension "pos" = SeparateContext positive_int)
    by (apply H; by vm_compute).
  discriminate Hc.
Qed.

Lemma register_wrong_arity_witness :
  (forall definition, two_arguments <> PyStr definition) /\
  hasattr_call two_arguments = true /\
  exists msg,
    (new_contract_impl (PyStr "even") two_arguments initial).1 = inl (ValueError msg) /\
    mentions msg "<lambda>() takes exactly 2 arguments (1 given)" /\
    registrar (new_contract_impl (PyStr "even") two_arguments initial).2 = ∅.
Proof.
  assert (Hne : forall definition, two_arguments <> PyStr definition) by discriminate.
  split; [exact Hne | split; [reflexivity |]].
  destruct (register_wrong_arity two_arguments
              "<lambda>() takes exactly 2 arguments (1 given)" Hne eq_refl
              ltac:(by vm_compute) (PyStr "even") initial)
    as [(e' & st' & Hfails & Hreg & _) H].
  destruct (H "even" (check_not_known "even" initial).2
              (check_identifier "even" (check_not_known "even" initial).2).2
              eq_refl ltac:(by vm_compute) ltac:(by vm_compute))
    as (msg & st3 & Hrun & Herr & _).
  exists msg. rewrite Hrun in Hfails |- *. injection Hfails as _ <-.
  split; [done | split; [exact Herr | exact Hreg]].
Defined.

(** ["list"] is not registered and parses: refused. ["pos"] is not
    registered and does not parse: the parse is made, and the call goes on.
    Once ["pos"] is registered it parses, and registering it again with the
    same definition returns, the identifier grammar being the first call
    made. *)
Lemma register_known_expression_witness :
  (registrar initial !! "list" = None /\
   (parse_contract_string "list" initial).1 = inr (CheckType "list") /\
   (new_contract_impl (PyStr "list") (PyStr "int") initial).1
   = inl (ValueError (overwrites "list" (CheckType "list")))) /\
  (registrar initial !! "pos" = None /\
   exists made,
     calls (new_contract_impl (PyStr "pos") (PyStr "int,>0") initial).2
     = CallParseString "pos" :: CallIdentifier "pos" :: made) /\
  (registered pos_registered "pos" (SeparateContext positive_int) /\
   (parse_contract_string "pos" pos_registered).1 = inr (Extension "pos") /\
   (new_contract_impl (PyStr "pos") (PyStr "int,>0") pos_registered).1 = inr positive_int /\
   exists made,
     calls (new_contract_impl (PyStr "pos") (PyStr "int,>0") pos_registered).2
     = (calls pos_registered ++ CallIdentifier "pos" :: made)%list).
Proof.
  split; [| split].
  - destruct (register_known_expression "list" initial) as [H _].
    destruct (H eq_refl (CheckType "list") (parse_contract_string "list" initial).2
                ltac:(by vm_compute) (PyStr "int")) as (-> & _).
    split; [done | split; [by vm_compute | done]].
  - destruct (register_known_expression "pos" initial) as (_ & H & _).
    assert (Hp : exists e st1, parse_contract_string "pos" initial = (inl e, st1))
      by (vm_compute; eauto).
    destruct Hp as (e & st1 & Hp).
    destruct (H eq_refl e st1 Hp (PyStr "int,>0")) as [Hmade _].
    split; [done | exact Hmade].
  - assert (Hreg : registered pos_registered "pos" (SeparateContext positive_int)).
    { split; [by vm_compute | split; [eexists; by vm_compute | by vm_compute]]. }
    destruct (register_known_expression "pos" pos_registered) as (_ & _ & H).
    destruct (H (SeparateContext positive_int) ltac:(by vm_compute) (PyStr "int,>0"))
      as (Hmade & _ & _ & _ & Hreturns).
    split; [exact Hreg |]. split; [by vm_compute |]. split; [| exact Hmade].
    by rewrite (Hreturns Hreg positive_int
                  (check_condition (PyStr "int,>0")
                     (log (CallIdentifier "pos") pos_registered)).2
                  ltac:(by vm_compute) eq_refl).
Defined.

Lemma register_bad_identifier_witness :
  (exists e, parseString string_end identifier_expression "123bad" = ParseException e) /\
  exists msg,
    (new_contract_impl (PyStr "123bad") (PyStr "int") initial).1 = inl (ValueError msg) /\
    (new_contract_impl (PyStr "123bad") even initial).1 = inl (ValueError msg).
Proof.
  split; [eexists; by vm_compute |].
  destruct (register_bad_identifier "123bad" (mkParseError "Expected identifier" 1 0)
              initial ltac:(by vm_compute)) as (msg & st' & Hall & _).
  exists msg. by rewrite !Hall.
Defined.

Lemma fail_inverts_check_witness :
  (parse_contract_string "int,>0" initial).1 = inr positive_int /\
  (fail "int,>0" (PyInt (-5)) initial).1 = inr tt /\
  exists msg, (fail "int,>0" (PyInt 5) initial).1 = inl (ValueError msg).
Proof.
  destruct (fail_inverts_check "int,>0" (PyInt (-5)) initial
              (parse_contract_string "int,>0" initial).2 positive_int ltac:(by vm_compute))
    as [Habsorb _].
  destruct (fail_inverts_check "int,>0" (PyInt 5) initial
              (parse_contract_string "int,>0" initial).2 positive_int ltac:(by vm_compute))
    as [_ Hraise].
  split; [by vm_compute | split].
  - by rewrite (Habsorb _ ltac:(by vm_compute)).
  - destruct (Hraise Context_new ltac:(by vm_compute)) as (msg & -> & _). by exists msg.
Defined.

(** Registering ["same_length"] as ["list[N]"]: the returned node binds [N]
    in the context of the check, the registered node keeps it to itself. *)
Lemma new_contract_impl_returns_bare_witness :
  let r := new_contract_impl (PyStr "same_length") (PyStr "list[N]") initial in
  r.1 = inr list_of_N /\
  registrar r.2 !! "same_length" = Some (SeparateContext list_of_N) /\
  (Contract_check list_of_N (PyList [PyInt 1; PyInt 2; PyInt 3]) r.2).1
  = inr [("N", PyInt 3)] /\
  (Contract_check (SeparateContext list_of_N) (PyList [PyInt 1; PyInt 2; PyInt 3]) r.2).1
  = inr Context_new.
Proof.
  intros r.
  assert (H : new_contract_impl (PyStr "same_length") (PyStr "list[N]") initial
              = (inr list_of_N, r.2)) by (by vm_compute).
  destruct (new_contract_impl_returns_bare "same_length" (PyStr "list[N]") initial r.2
              list_of_N H) as (_ & _ & Hstored & _ & _ & Hcheck).
  destruct (Hcheck (PyList [PyInt 1; PyInt 2; PyInt 3]) [("N", PyInt 3)]
              ltac:(by vm_compute)) as [_ Hwrapped].
  split; [by vm_compute | split; [exact Hstored | split; [by vm_compute | exact Hwrapped]]].
Defined.

(** ** Further runs *)

(** The second of three strings is malformed: the third is never parsed
    and nothing is checked. *)
Lemma check_contracts_parses_before_checking_witness :
  cache_sound initial /\
  exists e,
    check_contracts ["int"; "int junk"; "list[N]"] [PyInt 1; PyInt 2; PyList []] initial
    = (inl (ContractSyntaxError (pe_str e) (mkWhere "int junk" (lineno e) (col e))),
       (check_contracts ["int"; "int junk"; "list[N]"] [PyInt 1; PyInt 2; PyList []]
          initial).2) /\
    calls (check_contracts ["int"; "int junk"; "list[N]"] [PyInt 1; PyInt 2; PyList []]
             initial).2
    = [CallParseString "int"; CallParseString "int junk"].
Proof.
  split; [exact cache_sound_initial |].
  destruct (check_contracts_parses_before_checking ["int"] "int junk" ["list[N]"]
              [PyInt 1; PyInt 2; PyList []] (end_of_text "int junk" " junk") initial
              cache_sound_initial eq_refl)
    as (st1 & Hrun & _).
  - constructor; [| constructor]. exists (CheckType "int"). reflexivity.
  - left. reflexivity.
  - cbn [app] in Hrun. eexists. split; [by rewrite Hrun | by vm_compute].
Defined.

Lemma definition_must_parse_witness :
  exists m,
    (new_contract_impl (PyStr "odd") (PyStr "int junk") initial).1 = inl (ValueError m) /\
    mentions m (repr (PyStr "int junk")) /\
    registrar (new_contract_impl (PyStr "odd") (PyStr "int junk") initial).2 = ∅.
Proof.
  destruct (definition_must_parse "odd" "int junk" initial
              (check_not_known "odd" initial).2
              (check_identifier "odd" (check_not_known "odd" initial).2).2
              (parse_contract_string "int junk"
                 (check_identifier "odd" (check_not_known "odd" initial).2).2).2
              "Expected end of text" (mkWhere "int junk" 1 3)
              ltac:(by vm_compute) ltac:(by vm_compute) ltac:(by vm_compute))
    as (m & Hrun & Hm & _ & Hreg).
  exists m. rewrite Hrun. split; [done | split; [exact Hm | exact Hreg]].
Defined.

Lemma registering_twice_witness :
  (new_contract_impl (PyStr "pos") (PyStr "int,>0") initial).1 = inr positive_int /\
  (new_contract_impl (PyStr "pos") (PyStr "int,>0") pos_registered).1 = inr positive_int /\
  registrar (new_contract_impl (PyStr "pos") (PyStr "int,>0") pos_registered).2
  = registrar pos_registered.
Proof.
  assert (H : new_contract_impl (PyStr "pos") (PyStr "int,>0") initial
              = (inr positive_int, pos_registered)) by (by vm_compute).
  destruct (registering_twice "pos" (PyStr "int,>0") initial pos_registered positive_int H)
    as (st'' & Hrun & Hreg & _).
  rewrite H, Hrun. by split.
Defined.

Lemma arguments_of_the_wrong_kind_witness :
  (exists m, new_contract_impl (PyInt 3) (PyStr "int") initial = (inl (ValueError m), initial)) /\
  (exists m, (new_contract_impl (PyStr "three") (PyInt 3) initial).1 = inl (ValueError m)).
Proof.
  destruct arguments_of_the_wrong_kind as [Hid Hdef]. split.
  - destruct (Hid (PyInt 3) (PyStr "int") initial ltac:(discriminate)) as (m & Hrun & _).
    by exists m.
  - destruct (Hdef "three" (PyInt 3) initial (check_not_known "three" initial).2
                (check_identifier "three" (check_not_known "three" initial).2).2
                ltac:(by vm_compute) ltac:(by vm_compute) ltac:(discriminate) eq_refl)
      as (m & Hrun & _).
    exists m. by rewrite Hrun.
Defined.

(** ** Runs of the decorators *)

Import DemoGlue.

(** [@new_contract def even(x)]. *)
Lemma new_contract_as_decorator_witness :
  (new_contract [even] initial).1 = inr (CheckCallable even) /\
  registrar (new_contract [even] initial).2 !! "even"
  = Some (SeparateContext (CheckCallable even)).
Proof.
  destruct (new_contract_as_decorator (mkFunc "even" ["x"] 0 None None []) initial
              (new_contract [even] initial).2 (CheckCallable even) ltac:(by vm_compute))
    as (_ & (Hreg & _) & _).
  split; [by vm_compute | exact Hreg].
Defined.

(** [@contracts(c='int') def longest(a, b)]. *)
Lemma decorate_unknown_keyword_witness :
  exists msg,
    contracts_decorate (longest [] None) [("c", SpecObject (PyStr "int"))] world
    = (inl (ContractException msg), world).
Proof.
  apply (decorate_unknown_keyword (longest [] None) [("c", SpecObject (PyStr "int"))]
           "c" world).
  - apply elem_of_cons. by left.
  - discriminate.
  - apply (bool_decide_unpack _). by vm_compute.
Defined.

(** Decorating a function with annotations prints them, and writes nothing
    to the registry. *)
Lemma decorate_frame_witness :
  registrar (engine_state
               (contracts_decorate
                  (longest [("a", SpecType "int"); ("return", SpecObject (PyStr "int"))] None)
                  [] world).2) = ∅ /\
  stdout (contracts_decorate
            (longest [("a", SpecType "int"); ("return", SpecObject (PyStr "int"))] None)
            [] world).2
  = ["{'a': <type 'int'>, 'return': 'int', }"].
Proof.
  destruct (decorate_frame
              (longest [("a", SpecType "int"); ("return", SpecObject (PyStr "int"))] None)
              [] world _ _ (surjective_pairing _)) as (Hr & _ & _ & Ho).
  split; [exact Hr | exact Ho].
Defined.

(** A docstring that documents no type. *)
Lemma decorate_nothing_to_go_on_witness :
  exists msg,
    contracts_decorate (longest [] (Some "Returns the longest.")) [] world
    = (inl (ContractException msg), world).
Proof.
  apply decorate_nothing_to_go_on; [reflexivity |].
  right. split; by vm_compute.
Defined.

(** With a keyword, the annotations and the docstring are not looked at. *)
Lemma decorate_precedence_witness :
  (contracts_decorate (longest [("a", SpecType "int")] (Some longest_doc))
     [("a", SpecObject (PyStr "list[N]"))] world).2
  = (contracts_decorate (longest [] None) [("a", SpecObject (PyStr "list[N]"))] world).2.
Proof.
  destruct (decorate_precedence (longest [("a", SpecType "int")] (Some longest_doc))
              (longest [] None) [("a", SpecObject (PyStr "list[N]"))] world
              eq_refl ltac:(by left)) as [Hworld _].
  exact Hworld.
Defined.

(** [@contracts(a='list[N]', returns='list[N]')] and
    [@contracts(a='list[N]', returns=None)] on [def longest(a, b)]: the
    second is given the contract ["*"] for its result. *)
Lemma decorate_keywords_witness :
  (exists d,
     (contracts_decorate (longest [] None)
        [("a", SpecObject (PyStr "list[N]")); ("returns", SpecObject (PyStr "list[N]"))]
        world).1 = inr d /\
     accepts_parsed d !! "a" = Some list_of_N /\
     accepts_parsed d !! "b" = None /\
     denotes ∅ (SpecObject (PyStr "list[N]")) (returns_parsed d)) /\
  (exists d,
     (contracts_decorate (longest [] None)
        [("a", SpecObject (PyStr "list[N]")); ("returns", SpecObject PyNone)]
        world).1 = inr d /\
     returns_parsed d = Clause "*" /\
     denotes ∅ (SpecObject (PyStr "*")) (returns_parsed d)).
Proof.
  split.
  - set (kwargs := [("a", SpecObject (PyStr "list[N]"));
                    ("returns", SpecObject (PyStr "list[N]"))]).
    set (d := mkDecorated (longest [] None) ["a"; "b"] (<["a" := list_of_N]> ∅) list_of_N
                None "longest" "demo").
    assert (H : contracts_decorate (longest [] None) kwargs world
                = (inr d, (contracts_decorate (longest [] None) kwargs world).2))
      by (by vm_compute).
    destruct (decorate_keywords (longest [] None) kwargs world d _ cache_sound_initial
                ltac:(done) ltac:(apply (bool_decide_unpack _); by vm_compute) H)
      as (_ & _ & Hret & _).
    exists d. rewrite H. split; [done |]. split; [by vm_compute |]. split; [by vm_compute |].
    apply Hret; [| discriminate]. apply elem_of_cons. right. apply elem_of_cons. by left.
  - set (kwargs := [("a", SpecObject (PyStr "list[N]")); ("returns", SpecObject PyNone)]).
    set (d := mkDecorated (longest [] None) ["a"; "b"] (<["a" := list_of_N]> ∅) (Clause "*")
                None "longest" "demo").
    assert (H : contracts_decorate (longest [] None) kwargs world
                = (inr d, (contracts_decorate (longest [] None) kwargs world).2))
      by (by vm_compute).
    destruct (decorate_keywords (longest [] None) kwargs world d _ cache_sound_initial
                ltac:(done) ltac:(apply (bool_decide_unpack _); by vm_compute) H)
      as (_ & _ & _ & Hdefault).
    exists d. rewrite H. split; [done |]. split; [done |].
    apply Hdefault. right. apply elem_of_cons. right. apply elem_of_cons. by left.
Defined.

(** Lists of different lengths: the second argument is refused and the
    function is not called. *)
Lemma wrapper_rejects_before_calling_witness :
  exists e,
    (wrapper same_lengths [PyList [PyInt 1]; PyList [PyInt 2; PyInt 3]] [] world).1
    = inl (Engine (ContractNotRespected e)) /\
    calls (engine_state
             (wrapper same_lengths [PyList [PyInt 1]; PyList [PyInt 2; PyInt 3]] []
                world).2)
    = [CallCheck list_of_N (PyList [PyInt 1]);
       CallCheck list_of_N (PyList [PyInt 2; PyInt 3])].
Proof.
  set (args := [PyList [PyInt 1]; PyList [PyInt 2; PyInt 3]]).
  set (bound := (list_to_map (zip ["a"; "b"] args) : gmap string PyObj)).
  exists (mkViolation "Expected N = 1" [("Clause('N')", "2")]).
  rewrite (wrapper_rejects_before_calling same_lengths args [] bound
             (ContractNotRespected (mkViolation "Expected N = 1" [("Clause('N')", "2")]))
             world).
  - split; [done | by vm_compute].
  - by vm_compute.
  - intros arg Harg _. apply elem_of_cons in Harg as [-> | Harg]; [by eexists |].
    apply elem_of_cons in Harg as [-> | Harg]; [by eexists |].
    by apply elem_of_nil in Harg.
  - by vm_compute.
Defined.

(** Lists of the same length: the second argument comes back. *)
Lemma wrapper_checks_result_in_same_context_witness :
  (wrapper same_lengths [PyList [PyInt 1]; PyList [PyInt 2]] [] world).1
  = inr (PyList [PyInt 2]).
Proof.
  set (args := [PyList [PyInt 1]; PyList [PyInt 2]]).
  set (bound := (list_to_map (zip ["a"; "b"] args) : gmap string PyObj)).
  rewrite (wrapper_checks_result_in_same_context same_lengths args [] bound
             [("N", PyInt 1)] (PyList [PyInt 2]) world
             (mkWorld (checked (argument_pairs ["a"; "b"] (accepts_parsed same_lengths) bound)
                         initial) [])).
  - by vm_compute.
  - by vm_compute.
  - intros arg Harg _. apply elem_of_cons in Harg as [-> | Harg]; [by eexists |].
    apply elem_of_cons in Harg as [-> | Harg]; [by eexists |].
    by apply elem_of_nil in Harg.
  - by vm_compute.
  - reflexivity.
Defined.

(** The type of [a] quoted in one docstring and bare in the other. *)
Lemma docstring_quoting_is_transparent_witness :
  parse_contracts_from_docstring (longest [] (Some longest_doc))
  = parse_contracts_from_docstring (longest [] (Some bare_doc)).
Proof.
  apply docstring_quoting_is_transparent.
  - reflexivity.
  - change (Forall2 (fun p q => p.1 = q.1 /\ (p.2 = q.2 \/ p.2 = "``" ++ q.2 ++ "``"))
              [("a", "``list[N]``"); ("b", "list[N]")] [("a", "list[N]"); ("b", "list[N]")]).
    constructor; [split; [done | by right] |].
    constructor; [split; [done | by left] | constructor].
  - change (Forall2 (fun p q => p = q \/ p = "``" ++ q ++ "``") ["list[N]"] ["list[N]"]).
    constructor; [by left | constructor].
  - change (Forall (fun q => startswith q.2 "``" = false /\ endswith q.2 "``" = false)
              [("a", "list[N]"); ("b", "list[N]")]).
    repeat constructor.
  - change (Forall (fun q => startswith q "``" = false /\ endswith q "``" = false)
              ["list[N]"]).
    repeat constructor.
Defined.
